(** * Voronoi grain lattice and grain-boundary detection

    A shallow embedding of [qstates_model.ipynb]: the two functions
    [generate_lattice] and [find_boundaries], the numpy operations they call,
    and the notebook's globals.

    Effects.  The notebook draws from numpy's process-wide generator and
    numpy raises Python exceptions.  Both live in one monad [M]: a
    computation reads entropy words from a tape and ends in a value with the
    rest of the tape, in an exception, or waiting for draws the tape no
    longer holds ([Pending]: the run has not finished).

    Numbers.  Lattice cells and origin rows are float64 in the notebook but
    only ever hold small integers; they are [Z] here.  The displacements, the
    basis and the squared distances are float64 whatever the dtype of the
    basis handed in: the operations the code uses on them are the class
    [Scalar], and IEEE binary64 ([float64], Rocq's primitive floats) is its
    instance.  Each product and each sum is rounded on its own. *)

From Stdlib Require Import Floats.
From stdpp Require Import base list.
From Stdlib Require Import ZArith Lia.

Local Open Scope Z_scope.

(** ** The random source and the exception monad *)

Definition tape := list nat.

Inductive exn := ValueError | IndexError.

Inductive outcome (A : Type) :=
| Ret (a : A) (t : tape)
| Raise (e : exn)
| Pending.
Arguments Ret {A} a t.
Arguments Raise {A} e.
Arguments Pending {A}.

Definition M (A : Type) : Type := tape → outcome A.

#[global] Instance M_ret : MRet M := λ A a t, Ret a t.
#[global] Instance M_bind : MBind M := λ A B k m t,
  match m t with
  | Ret a t' => k a t'
  | Raise e => Raise e
  | Pending => Pending
  end.

Definition raise {A} (e : exn) : M A := λ _, Raise e.

(** One entropy word, or [Pending] when the tape is used up. *)
Definition draw : M nat := λ t,
  match t with
  | [] => Pending
  | w :: t' => Ret w t'
  end.

(** [np.random.randint(low, high)]: an integer of [[low, high)], every one of
    them reachable; ValueError when the range is empty. *)
Definition randint (low high : Z) : M Z :=
  if high <=? low then raise ValueError
  else w ← draw; mret (low + Z.of_nat w mod (high - low)).

(** [np.random.choice(a)] on a one-dimensional array: one of its elements;
    ValueError when it is empty. *)
Definition choice {A} (a : list A) : M A :=
  match a with
  | [] => raise ValueError
  | x :: _ => w ← draw; mret (nth (w mod length a)%nat a x)
  end.

(** [for x in xs: s = body(x, s)] *)
Fixpoint for_each {A S} (xs : list A) (body : A → S → M S) (s : S) : M S :=
  match xs with
  | [] => mret s
  | x :: xs' => s' ← body x s; for_each xs' body s'
  end.

(** [range(n)] *)
Definition range (n : nat) : list nat := seq 0 n.

(** ** numpy arrays *)

(** A two-dimensional array of cell values, as its list of rows. *)
Abbreviation grid := (list (list Z)).

(** A lattice coordinate or an origin row [[x, y]]. *)
Abbreviation coord := (Z * Z)%type.

(** numpy's index rule along one axis of extent [len]: [0 <= i < len] is
    position [i], [-len <= i < 0] counts from the end, anything else is an
    IndexError. *)
Definition np_index (len : nat) (i : Z) : option nat :=
  if (0 <=? i) && (i <? Z.of_nat len) then Some (Z.to_nat i)
  else if (- Z.of_nat len <=? i) && (i <? 0) then Some (Z.to_nat (Z.of_nat len + i))
  else None.

(** [a[i]] *)
Definition getitem {A} (a : list A) (i : Z) : M A :=
  match np_index (length a) i with
  | Some k => match a !! k with Some x => mret x | None => raise IndexError end
  | None => raise IndexError
  end.

(** [a[i] = v] *)
Definition setitem {A} (a : list A) (i : Z) (v : A) : M (list A) :=
  match np_index (length a) i with
  | Some k => mret (<[k:=v]> a)
  | None => raise IndexError
  end.

(** [a[i, j]] *)
Definition getitem2 (a : grid) (i j : Z) : M Z :=
  row ← getitem a i; getitem row j.

(** [a[i, j] = v] *)
Definition setitem2 (a : grid) (i j : Z) (v : Z) : M grid :=
  row ← getitem a i; row' ← setitem row j v; setitem a i row'.

(** The largest extent and the largest size in bytes of an array where
    [npy_intp] has 64 bits. *)
Definition NPY_MAX_INTP : Z := 2 ^ 63 - 1.

(** The size in bytes of a float64 array as numpy counts it before it
    allocates: eight bytes an item, extents of zero passed over. *)
Definition nbytes (shape : list Z) : Z :=
  foldl (λ b d, if d =? 0 then b else b * d) 8 shape.

(** [np.ones(shape=(n, m)) * v] along its first axis: [n] copies of [row],
    which stands for [m] items [v].  ValueError for a negative extent, and
    for a shape whose bytes go beyond [NPY_MAX_INTP], which covers an extent
    beyond it.  Memory itself is taken to be there. *)
Definition np_full {A} (n m : Z) (row : A) : M (list A) :=
  if (n <? 0) || (m <? 0) || (NPY_MAX_INTP <? nbytes [n; m])
  then raise ValueError
  else mret (replicate (Z.to_nat n) row).

(** [np.clip(x, lo, hi)], which numpy computes as
    [minimum(hi, maximum(x, lo))]. *)
Definition np_clip (lo hi x : Z) : Z := Z.min hi (Z.max x lo).

Definition clip_row (lo hi : Z) (p : coord) : coord :=
  (np_clip lo hi p.1, np_clip lo hi p.2).

(** [np.unique(a, axis=0)]: the distinct rows in lexicographic order. *)
Definition row_ltb (p q : coord) : bool :=
  (p.1 <? q.1) || ((p.1 =? q.1) && (p.2 <? q.2)).

Definition row_eqb (p q : coord) : bool := (p.1 =? q.1) && (p.2 =? q.2).

Fixpoint insert_row (p : coord) (l : list coord) : list coord :=
  match l with
  | [] => [p]
  | q :: l' =>
      if row_ltb p q then p :: q :: l'
      else if row_eqb p q then q :: l'
      else q :: insert_row p l'
  end.

Definition np_unique_rows (a : list coord) : list coord :=
  foldr insert_row [] a.

(** ** The arithmetic of the distance computation *)

Class Scalar (F : Type) := {
  of_Z : Z → F;
  fadd : F → F → F;
  fmul : F → F → F;
  feqb : F → F → bool;
  fleb : F → F → bool
}.

(** What the comparisons [==] and [<=] of IEEE arithmetic satisfy.  A value
    that [==] itself is one that is not NaN; a comparison with NaN on either
    side is false. *)
Class ScalarOrder (F : Type) `{Scalar F} : Prop := {
  feqb_fleb : ∀ x y : F, feqb x y = true → fleb x y = true;
  fleb_ordered : ∀ x y : F,
    fleb x y = true → feqb x x = true ∧ feqb y y = true;
  fleb_total : ∀ x y : F,
    feqb x x = true → feqb y y = true → fleb x y = true ∨ fleb y x = true;
  fleb_trans : ∀ x y z : F, fleb x y = true → fleb y z = true → fleb x z = true
}.

(** IEEE binary64, numpy's float64.  [of_Z] is the conversion of an int64
    to float64, rounded to nearest; the sign goes onto the converted
    magnitude. *)
#[global] Instance float64 : Scalar float := {
  of_Z z :=
    if z <? 0 then PrimFloat.opp (of_uint63 (Uint63Axioms.of_Z (- z)))
    else of_uint63 (Uint63Axioms.of_Z z);
  fadd := PrimFloat.add;
  fmul := PrimFloat.mul;
  feqb := PrimFloat.eqb;
  fleb := PrimFloat.leb
}.

(** The place of a float64 value in the order of the extended reals: the
    class of its sign, then exponent and mantissa; NaN has none. *)
Definition rank (x : spec_float) : option (Z * Z * Z) :=
  match x with
  | S754_nan => None
  | S754_infinity true => Some (-2, 0, 0)
  | S754_infinity false => Some (2, 0, 0)
  | S754_zero _ => Some (0, 0, 0)
  | S754_finite true m e => Some (-1, - e, Z.neg m)
  | S754_finite false m e => Some (1, e, Z.pos m)
  end.

Definition rank_le (a b : Z * Z * Z) : Prop :=
  a.1.1 < b.1.1 ∨
  (a.1.1 = b.1.1 ∧ (a.1.2 < b.1.2 ∨ (a.1.2 = b.1.2 ∧ a.2 ≤ b.2))).

Definition SFis_zero (x : spec_float) : Prop :=
  match x with
  | S754_zero _ => True
  | _ => False
  end.

(** [y] is [- x], but for the sign of a zero. *)
Definition mirrored (x y : spec_float) : Prop :=
  y = SFopp x ∨ (SFis_zero x ∧ SFis_zero y).

(** A 2x2 matrix [[[a, b], [c, d]]]. *)
Definition matrix (F : Type) : Type := (F * F) * (F * F).

Section Distances.
Context {F : Type} `{Scalar F}.

(** [npy_isnan]: [x == x] fails for NaN alone. *)
Definition npy_isnan (x : F) : bool := negb (feqb x x).

(** One step of numpy's minimum reduction,
    [io1 = (io1 <= in2 || npy_isnan(io1)) ? io1 : in2]: a NaN on either
    side comes out. *)
Definition fmin (x y : F) : F := if fleb x y || npy_isnan x then x else y.

(** [a.min()]: ValueError on an empty array. *)
Definition np_min (a : list F) : M F :=
  match a with
  | [] => raise ValueError
  | x :: a' => mret (foldl fmin x a')
  end.

(** [np.where(a == m)[0]]: the positions, counted from [k], that hold a
    value equal to [m]. *)
Fixpoint where_eq_from (k : nat) (a : list F) (m : F) : list nat :=
  match a with
  | [] => []
  | x :: a' =>
      if feqb x m then k :: where_eq_from (S k) a' m
      else where_eq_from (S k) a' m
  end.

Definition np_where_eq (a : list F) (m : F) : list nat := where_eq_from 0 a m.

(** One row of [rel]: the cell minus the origin.  The indices of a lattice
    that numpy allocates are below 2^53, where float64 subtracts them
    without rounding: the difference is taken in [Z] and converted. *)
Definition rel_row (i j : Z) (o : coord) : F * F :=
  (of_Z (i - o.1), of_Z (j - o.2)).

(** One row of [np.matmul(basis, rel.T).T]: the basis applied to the
    displacement, taken as a column. *)
Definition cart_rel_row (basis : matrix F) (r : F * F) : F * F :=
  (fadd (fmul basis.1.1 r.1) (fmul basis.1.2 r.2),
   fadd (fmul basis.2.1 r.1) (fmul basis.2.2 r.2)).

(** One entry of [np.sum(cart_rel ** 2, axis=1)]. *)
Definition sq_norm (c : F * F) : F := fadd (fmul c.1 c.1) (fmul c.2 c.2).

Definition sq_dist_to (basis : matrix F) (i j : Z) (o : coord) : F :=
  sq_norm (cart_rel_row basis (rel_row i j o)).

Definition sq_dist (basis : matrix F) (i j : Z) (origins : list coord) : list F :=
  sq_dist_to basis i j <$> origins.
End Distances.

(** ** generate_lattice *)

Section GenerateLattice.
Context {F : Type} `{Scalar F}.

(** The notebook's module-level [SIZE], which the function body reads. *)
Variable SIZE : nat.

(** The [while o_count < n_grains] loop.  Every round draws twice, so a
    run given [fuel] rounds with [fuel] above the length of the tape ends
    by itself: with all origins chosen, or [Pending] on the empty tape. *)
Fixpoint select_origins (fuel : nat) (n_grains : Z)
    (lattice : grid) (origins : list coord) (o_count : nat)
    : M (grid * list coord) :=
  if Z.of_nat o_count <? n_grains then
    match fuel with
    | O => λ _, Pending
    | S fuel' =>
        p0 ← randint 0 (Z.of_nat SIZE);
        p1 ← randint 0 (Z.of_nat SIZE);
        if bool_decide ((p0, p1) ∈ take o_count origins) then
          select_origins fuel' n_grains lattice origins o_count
        else
          origins' ← setitem origins (Z.of_nat o_count) (p0, p1);
          lattice' ← setitem2 lattice p0 p1 (Z.of_nat o_count);
          select_origins fuel' n_grains lattice' origins' (S o_count)
    end
  else mret (lattice, origins).

(** The whole loop, with more rounds than the tape can pay for. *)
Definition select_all (n_grains : Z) (lattice : grid) (origins : list coord)
    : M (grid * list coord) :=
  λ t, select_origins (S (length t)) n_grains lattice origins 0 t.

(** The state at the end of origin selection. *)
Definition choose_origins (n_grains : Z) : M (grid * list coord) :=
  lattice ← np_full (Z.of_nat SIZE) (Z.of_nat SIZE) (replicate SIZE (-1));
  origins ← np_full n_grains 2 ((-1, -1) : coord);
  select_all n_grains lattice origins.

(** The body of the fill pass at cell [(i, j)]. *)
Definition fill_cell (basis : matrix F) (origins : list coord)
    (i j : nat) (lattice : grid) : M grid :=
  v ← getitem2 lattice (Z.of_nat i) (Z.of_nat j);
  if v =? -1 then
    let sq := sq_dist basis (Z.of_nat i) (Z.of_nat j) origins in
    m ← np_min sq;
    k ← choice (np_where_eq sq m);
    setitem2 lattice (Z.of_nat i) (Z.of_nat j) (Z.of_nat k)
  else mret lattice.

Definition fill (basis : matrix F) (origins : list coord) (lattice : grid)
    : M grid :=
  for_each (range SIZE)
    (λ i lattice, for_each (range SIZE) (fill_cell basis origins i) lattice)
    lattice.

(** [generate_lattice(size, n_grains, basis)].  [size] is a parameter that
    the body never reads: the lattice and the draws take the module-level
    [SIZE]. *)
Definition generate_lattice (size n_grains : Z) (basis : matrix F) : M grid :=
  '(lattice, origins) ← choose_origins n_grains;
  fill basis origins lattice.
End GenerateLattice.

(** ** find_boundaries *)

(** The [for n in nn] loop: [true] when it appends and breaks. *)
Fixpoint differing_neighbor (lattice : grid) (grain : Z) (nn : list coord)
    : M bool :=
  match nn with
  | [] => mret false
  | n :: nn' =>
      v ← getitem2 lattice n.1 n.2;
      if bool_decide (v ≠ grain) then mret true
      else differing_neighbor lattice grain nn'
  end.

Definition neighbors (size : nat) (nn_f : coord → list coord) (i j : nat)
    : list coord :=
  np_unique_rows
    (clip_row 0 (Z.of_nat size - 1) <$> nn_f (Z.of_nat i, Z.of_nat j)).

Definition scan_cell (lattice : grid) (nn_f : coord → list coord)
    (size i j : nat) (boundaries : list coord) : M (list coord) :=
  grain ← getitem2 lattice (Z.of_nat i) (Z.of_nat j);
  b ← differing_neighbor lattice grain (neighbors size nn_f i j);
  mret (if b : bool then boundaries ++ [(Z.of_nat i, Z.of_nat j)] else boundaries).

Definition find_boundaries (lattice : grid) (nn_f : coord → list coord)
    : M (list coord) :=
  let size := length lattice in
  for_each (range size)
    (λ i boundaries,
       for_each (range size) (scan_cell lattice nn_f size i) boundaries)
    [].

(** ** The notebook's globals and its two calls *)

Module Notebook.
Definition N_GRAINS : Z := 10.
Definition SIZE : nat := 40.

(** [np.array([[1, 0], [0, 1]])], as [np.matmul] takes it against the
    float64 displacements. *)
Definition identity : matrix float := ((1, 0), (0, 1))%float.

(** [lambda p: np.array([p+[0, -1], p+[-1, 0], p+[0, 1], p+[1, 0]])] *)
Definition nn_f (p : coord) : list coord :=
  [(p.1 + 0, p.2 + -1); (p.1 + -1, p.2 + 0); (p.1 + 0, p.2 + 1); (p.1 + 1, p.2 + 0)].

(** [grain_lattice = generate_lattice(SIZE, N_GRAINS, ...)] *)
Definition grain_lattice : M grid :=
  generate_lattice SIZE (Z.of_nat SIZE) N_GRAINS identity.

(** [grain_boundaries = find_boundaries(grain_lattice, lambda ...)] *)
Definition grain_boundaries : M (list coord) :=
  lattice ← grain_lattice; find_boundaries lattice nn_f.
End Notebook.

(** ** Reading the state of a grid *)

(** The cell of a grid at a position inside it. *)
Definition cell (a : grid) (i j : nat) : option Z :=
  row ← a !! i; row !! j.

(** The grid with one cell replaced. *)
Definition with_cell (a : grid) (i j : nat) (v : Z) : grid :=
  match a !! i with
  | Some row => <[i := <[j := v]> row]> a
  | None => a
  end.

(** [shape a = (n, m)]: [n] rows of [m] cells each. *)
Definition shape (a : grid) (n m : nat) : Prop :=
  length a = n ∧ Forall (λ row, length row = m) a.

(** ** Independence of the random source *)

Definition lift {A} (r : A + exn) : M A := λ t,
  match r with
  | inl a => Ret a t
  | inr e => Raise e
  end.

(** [m] ends the same way on every tape, and hands the tape back. *)
Definition tape_free {A} (m : M A) : Prop := ∃ r, ∀ t, m t = lift r t.

(** ** The boundary set, in the words of the specification *)

(** The grain-id stored at a coordinate of the lattice. *)
Definition grain_at (a : grid) (p : coord) : option Z :=
  cell a (Z.to_nat p.1) (Z.to_nat p.2).

(** A component clamped into [[0, size - 1]]. *)
Definition clamp (size : nat) (x : Z) : Z :=
  if x <? 0 then 0
  else if Z.of_nat size - 1 <? x then Z.of_nat size - 1
  else x.

Definition clamp_coord (size : nat) (p : coord) : coord :=
  (clamp size p.1, clamp size p.2).

(** A boundary site: its grain-id differs from the grain-id of at least one
    of its clamped neighbours. *)
Definition boundary_site (a : grid) (nn_f : coord → list coord) (p : coord)
    : Prop :=
  Exists (λ q, grain_at a q ≠ grain_at a p) (clamp_coord (length a) <$> nn_f p).

(** All coordinates of a [size] x [size] lattice in row-major order. *)
Definition row_major (size : nat) : list coord :=
  i ← range size; (λ j, (Z.of_nat i, Z.of_nat j)) <$> range size.

#[global] Instance boundary_site_dec a nn_f p : Decision (boundary_site a nn_f p).
Proof. unfold boundary_site. apply _. Defined.

(** A lattice with one cell left unassigned, and a lattice wider than high. *)
Definition partly_unassigned : grid := [[-1; 0]; [0; 0]].
Definition wide_lattice : grid := [[0; 0; 1]; [0; 1; 1]].
Definition sample_lattice : grid := [[0; 0; 1]; [0; 1; 1]; [0; 0; 1]].
Definition sample_boundaries : list coord :=
  [(0, 1); (0, 2); (1, 0); (1, 1); (2, 1); (2, 2)].

(** A neighbour function that points far outside any lattice. *)
Definition far_away (p : coord) : list coord :=
  [(p.1 - 7, p.2 + 100); (p.1 + 1000, p.2 - 1000)].

(** ** Specifications of computations *)

(** [m] raises nothing, and whatever it returns satisfies [Q]. *)
Definition post {A} (m : M A) (Q : A → Prop) : Prop :=
  ∀ t, match m t with
       | Ret a _ => Q a
       | Raise _ => False
       | Pending => True
       end.

(** [m] draws at most [c] words, and is left waiting only by a tape shorter
    than that; what it returns satisfies [Q]; it raises an exception only
    where [R] allows it. *)
Definition within_unless {A} (R : exn → Prop) (m : M A) (c : nat)
    (Q : A → Prop) : Prop :=
  ∀ t, match m t with
       | Ret a t' => Q a ∧ (length t ≤ length t' + c)%nat
       | Raise e => R e
       | Pending => (length t < c)%nat
       end.

(** The same of an [m] that raises nothing. *)
Abbreviation within := (within_unless (λ _, False)).

(** ** The state of generate_lattice *)

(** The coordinate is one of a [size] x [size] lattice. *)
Definition on_lattice (size : nat) (p : coord) : Prop :=
  0 ≤ p.1 < Z.of_nat size ∧ 0 ≤ p.2 < Z.of_nat size.

(** What holds of the loop state whenever [o_count] origins are chosen: they
    are distinct sites of the lattice, each labelled with its own index, and
    every other site is still unassigned. *)
Record origins_chosen (size n_grains : nat) (lattice : grid)
    (origins : list coord) (o_count : nat) : Prop := {
  chosen_shape : shape lattice size size;
  chosen_length : length origins = n_grains;
  chosen_count : (o_count ≤ n_grains)%nat;
  chosen_distinct : NoDup (take o_count origins);
  chosen_on_lattice : ∀ o, o ∈ take o_count origins → on_lattice size o;
  chosen_own : ∀ k o, (k < o_count)%nat → origins !! k = Some o →
                 grain_at lattice o = Some (Z.of_nat k);
  chosen_rest : ∀ p, on_lattice size p → p ∉ take o_count origins →
                 grain_at lattice p = Some (-1)
}.

(** The state entered by one accepted draw [p]. *)
Definition accept (lattice : grid) (origins : list coord) (o_count : nat)
    (p : coord) : grid * list coord :=
  (with_cell lattice (Z.to_nat p.1) (Z.to_nat p.2) (Z.of_nat o_count),
   <[o_count := p]> origins).

(** The coordinate that two entropy words select, through
    [randint(0, size)] twice. *)
Definition drawn (size : nat) (w0 w1 : nat) : coord :=
  (0 + Z.of_nat w0 mod (Z.of_nat size - 0), 0 + Z.of_nat w1 mod (Z.of_nat size - 0)).

(** The coordinate of the cell in row [i] and column [j]. *)
Definition site (i j : nat) : coord := (Z.of_nat i, Z.of_nat j).

(** numpy allocates the two arrays of [generate_lattice]: the lattice and
    the origins. *)
Definition allocates (SIZE : nat) (n_grains : Z) : Prop :=
  nbytes [Z.of_nat SIZE; Z.of_nat SIZE] ≤ NPY_MAX_INTP ∧
  nbytes [n_grains; 2] ≤ NPY_MAX_INTP.

#[global] Instance allocates_dec SIZE n_grains :
  Decision (allocates SIZE n_grains).
Proof. unfold allocates. apply _. Defined.

(** ** The transformed squared distance, in the words of the specification *)

Section TransformedDistance.
Context {F : Type} `{Scalar F}.

(** The displacement from a cell to an origin, in lattice indices. *)
Definition displacement (p o : coord) : coord := (o.1 - p.1, o.2 - p.2).

(** The inner product of two vectors of the plane. *)
Definition dot (u v : F * F) : F := fadd (fmul u.1 v.1) (fmul u.2 v.2).

(** [basis · d]: the rows of the basis against the displacement. *)
Definition transform (basis : matrix F) (d : F * F) : F * F :=
  (dot basis.1 d, dot basis.2 d).

(** The squared Euclidean norm. *)
Definition sq_euclidean (v : F * F) : F := dot v v.

(** The squared distance from the cell [p] to the origin [o]: the squared
    norm of the displacement mapped through the basis. *)
Definition transformed_sq_distance (basis : matrix F) (p o : coord) : F :=
  let d := displacement p o in
  sq_euclidean (transform basis (of_Z d.1, of_Z d.2)).

(** [v] is the index of an origin of the argmin set of the cell [p]: no
    origin has a smaller transformed squared distance to [p]. *)
Definition realizes_minimum (basis : matrix F) (origins : list coord)
    (p : coord) (v : Z) : Prop :=
  ∃ (k : nat) (o : coord),
    v = Z.of_nat k ∧ origins !! k = Some o ∧
    ∀ o', o' ∈ origins →
      fleb (transformed_sq_distance basis p o)
           (transformed_sq_distance basis p o') = true.

(** No transformed squared distance between two sites of the lattice
    evaluates to NaN. *)
Definition no_nan_distance (SIZE : nat) (basis : matrix F) : Prop :=
  Forall (λ p, Forall (λ o,
            npy_isnan (transformed_sq_distance basis p o) = false)
            (row_major SIZE))
    (row_major SIZE).

#[global] Instance no_nan_distance_dec SIZE basis :
  Decision (no_nan_distance SIZE basis).
Proof. unfold no_nan_distance. apply _. Defined.
End TransformedDistance.

(** ** The result of the fill pass *)

Section Nearest.
Context {F : Type} `{Scalar F}.

(** [v] is the index of an origin whose squared distance to the cell
    [(i, j)], as the fill pass computes it, is least among all origins. *)
Definition nearest (basis : matrix F) (origins : list coord) (i j : nat)
    (v : Z) : Prop :=
  ∃ (k : nat) (o : coord),
    v = Z.of_nat k ∧ origins !! k = Some o ∧
    ∀ o', o' ∈ origins →
      fleb (sq_dist_to basis (Z.of_nat i) (Z.of_nat j) o)
           (sq_dist_to basis (Z.of_nat i) (Z.of_nat j) o') = true.

(** The one exception of the fill pass at the cell [(i, j)]: the ValueError
    of [np.random.choice] on no candidate, when the squared distance to some
    origin is NaN. *)
Definition nan_raised (basis : matrix F) (origins : list coord) (i j : nat)
    (e : exn) : Prop :=
  e = ValueError ∧
  ∃ o, o ∈ origins ∧
    npy_isnan (sq_dist_to basis (Z.of_nat i) (Z.of_nat j) o) = true.

Definition nan_raised_on (size : nat) (basis : matrix F)
    (origins : list coord) (e : exn) : Prop :=
  ∃ i j : nat, (i < size)%nat ∧ (j < size)%nat ∧ nan_raised basis origins i j e.

(** What the fill pass makes of the cell [(i, j)] of [lattice0]: a nearest
    origin where it was unassigned, its old value elsewhere. *)
Definition assigned (basis : matrix F) (origins : list coord) (lattice0 : grid)
    (i j : nat) (v : Z) : Prop :=
  match cell lattice0 i j with
  | Some w => if w =? -1 then nearest basis origins i j v else v = w
  | None => False
  end.

(** The lattice once the first [pos] cells in row-major order are done. *)
Definition filled (size : nat) (basis : matrix F) (origins : list coord)
    (lattice0 : grid) (pos : nat) (lattice : grid) : Prop :=
  shape lattice size size ∧
  ∀ i j : nat, (i < size)%nat → (j < size)%nat →
    ((i * size + j < pos)%nat →
       ∃ v, cell lattice i j = Some v ∧ assigned basis origins lattice0 i j v) ∧
    ((pos ≤ i * size + j)%nat → cell lattice i j = cell lattice0 i j).
End Nearest.

(** ** Sample runs *)

(** The value a finished run returned. *)
Definition returned {A} (o : outcome A) : option A :=
  match o with
  | Ret a _ => Some a
  | _ => None
  end.

(** Draws that pick the origins (0,0), (1,1), ..., (9,9) one after the other,
    then a zero for every cell left to fill on the notebook's lattice. *)
Definition ten_origins_tape : tape :=
  (k ← seq 0 10; [k; k]) ++ replicate 1590 0%nat.

(** Draws that pick the origins (17,25) and (3,38), then zeros. *)
Definition two_origins_tape : tape :=
  [17; 25; 3; 38]%nat ++ replicate 1598 0%nat.

(** On a 3 x 3 lattice: the origins (0,0) and (2,2), then one draw a cell. *)
Definition corner_tape : tape := [0; 0; 2; 2; 0; 0; 5; 5; 5; 5; 5]%nat.

(** The lattice with every grain-id renamed by [f]. *)
Definition relabel (f : Z → Z) (a : list (list Z)) : list (list Z) :=
  (λ row : list Z, f <$> row) <$> a.

(** ** Neighbouring cells *)

(** The cells [(i, j)] and [(i', j')] are next to each other in a row or in
    a column. *)
Definition adjacent (i j i' j' : nat) : Prop :=
  (i' = i ∧ (j' = S j ∨ j = S j')) ∨ (j' = j ∧ (i' = S i ∨ i = S i')).

(** ** The plotting cell *)

(** [boundary_marked = np.zeros(shape=(SIZE, SIZE))], then
    [boundary_marked[b[0], b[1]] = 10] for every [b] of [grain_boundaries]. *)
Definition boundary_marked (SIZE : nat) (grain_boundaries : list coord)
    : M grid :=
  for_each grain_boundaries (λ b mask, setitem2 mask b.1 b.2 10)
    (replicate SIZE (replicate SIZE 0)).

(** The cells of the notebook in sequence, for any lattice extent, grain
    count, basis and neighbour function. *)
Definition session {F : Type} `{Scalar F} (SIZE : nat) (n_grains : Z)
    (basis : matrix F) (nn_f : coord → list coord)
    : M (grid * list coord * grid) :=
  grain_lattice ← generate_lattice SIZE (Z.of_nat SIZE) n_grains basis;
  grain_boundaries ← find_boundaries grain_lattice nn_f;
  mask ← boundary_marked SIZE grain_boundaries;
  mret (grain_lattice, grain_boundaries, mask).

(** The basis with every entry negated. *)
Definition negate_basis (basis : matrix float) : matrix float :=
  ((PrimFloat.opp basis.1.1, PrimFloat.opp basis.1.2),
   (PrimFloat.opp basis.2.1, PrimFloat.opp basis.2.2)).

(** A basis that stretches the first axis by 2^30: [[2^30, 0], [0, 1]]. *)
Definition stretched_basis : matrix float := ((0x1p30, 0), (0, 1))%float.

(** [[0, 1], [94906267, 0]], and three times it. *)
Definition skew_basis : matrix float := ((0, 1), (94906267, 0))%float.
Definition skew_basis_tripled : matrix float :=
  ((0, 3), (284718801, 0))%float.

(** On a 3 x 3 lattice: the origins (0,0) and (2,1), then a one a cell. *)
Definition tie_tape : tape := [0; 0; 2; 1]%nat ++ replicate 7 1%nat.

(** A basis whose products overflow float64 two sites away from an origin:
    [[2^1023, -2^1023], [0, 0]]. *)
Definition overflowing_basis : matrix float :=
  ((0x1p1023, -0x1p1023), (0, 0))%float.

(** ** More sample data *)

(** What [corner_tape] gives on a 3 x 3 lattice with two grains. *)
Definition corner_lattice : grid := [[0; 0; 0]; [0; 1; 1]; [1; 1; 1]].
Definition corner_boundaries : list coord :=
  [(0, 1); (0, 2); (1, 0); (1, 1); (1, 2); (2, 0)].
Definition corner_mask : grid := [[0; 10; 10]; [10; 10; 10]; [10; 0; 0]].

(** Draws that make every site of a 2 x 2 lattice an origin. *)
Definition full_tape : tape := [0; 0; 0; 1; 1; 0; 1; 1]%nat.

(** The eight neighbours of a Moore neighbourhood. *)
Definition moore (p : coord) : list coord :=
  Notebook.nn_f p ++
  [(p.1 + -1, p.2 + -1); (p.1 + -1, p.2 + 1); (p.1 + 1, p.2 + -1); (p.1 + 1, p.2 + 1)].

(** The notebook's neighbours in the opposite order. *)
Definition nn_f_reversed (p : coord) : list coord := reverse (Notebook.nn_f p).

(** * Verification *)

(** ** float64: the order of its comparisons *)

Ltac rank_case :=
  split;
  [ first [ done
          | intros _; eexists _, _; split; [done|]; split; [done|]; simpl; lia ]
  | first [ done
          | intros (a & b & [= <-] & [= <-] & Hle); simpl in Hle; lia
          | by intros (a & b & ? & ? & _) ] ].

(** [<=] on float64 is the order of the ranks. *)
Lemma SFleb_rank (x y : spec_float) :
  SFleb x y = true ↔
  ∃ a b, rank x = Some a ∧ rank y = Some b ∧ rank_le a b.
Proof.
  unfold SFleb, rank_le.
  destruct x as [sx|sx| |sx mx ex], y as [sy|sy| |sy my ey];
    try destruct sx; try destruct sy; cbn [SFcompare rank];
    try change (Pos.compare_cont Eq mx my) with (Pos.compare mx my);
    try (destruct (Z.compare_spec ex ey) as [->| |];
         try destruct (Pos.compare_spec mx my) as [->| |]; cbn [CompOpp]);
    rank_case.
Qed.

(** [==] on float64 is equality of the ranks. *)
Lemma SFeqb_rank (x y : spec_float) :
  SFeqb x y = true ↔ ∃ a, rank x = Some a ∧ rank y = Some a.
Proof.
  unfold SFeqb.
  destruct x as [sx|sx| |sx mx ex], y as [sy|sy| |sy my ey];
    try destruct sx; try destruct sy; cbn [SFcompare rank];
    try change (Pos.compare_cont Eq mx my) with (Pos.compare mx my);
    try (destruct (Z.compare_spec ex ey) as [->| |];
         try destruct (Pos.compare_spec mx my) as [->| |]; cbn [CompOpp]);
    (split;
     [ first [ done | intros _; by eexists ]
     | first [ done | intros (a & [= <-] & [= Ha]); lia
             | intros (a & [= <-] & [= Ha1 Ha2]); lia
             | by intros (a & ? & ?) ] ]).
Qed.

Lemma rank_le_refl a : rank_le a a.
Proof. unfold rank_le. lia. Qed.

Lemma rank_le_total a b : rank_le a b ∨ rank_le b a.
Proof. unfold rank_le. lia. Qed.

Lemma rank_le_trans a b c : rank_le a b → rank_le b c → rank_le a c.
Proof. unfold rank_le. lia. Qed.

Lemma float_eqb_rank (x y : float) :
  PrimFloat.eqb x y = true ↔
  ∃ a, rank (Prim2SF x) = Some a ∧ rank (Prim2SF y) = Some a.
Proof. rewrite FloatAxioms.eqb_spec. apply SFeqb_rank. Qed.

Lemma float_leb_rank (x y : float) :
  PrimFloat.leb x y = true ↔
  ∃ a b, rank (Prim2SF x) = Some a ∧ rank (Prim2SF y) = Some b ∧ rank_le a b.
Proof. rewrite FloatAxioms.leb_spec. apply SFleb_rank. Qed.

#[global] Instance float64_order : ScalarOrder float.
Proof.
  split; cbn [feqb fleb float64].
  - intros x y (a & Hx & Hy)%float_eqb_rank. apply float_leb_rank.
    exists a, a. eauto using rank_le_refl.
  - intros x y (a & b & Hx & Hy & _)%float_leb_rank.
    split; apply float_eqb_rank; eauto.
  - intros x y (a & Hx & _)%float_eqb_rank (b & Hy & _)%float_eqb_rank.
    destruct (rank_le_total a b); [left|right]; apply float_leb_rank; eauto 6.
  - intros x y z (a & b & Hx & Hy & Hab)%float_leb_rank
                 (b' & c & Hy' & Hz & Hbc)%float_leb_rank.
    assert (b' = b) as -> by congruence.
    apply float_leb_rank. eauto 6 using rank_le_trans.
Qed.

(** [<] on float64 excludes [>=]. *)
Lemma float_ltb_not_leb (x y : float) :
  PrimFloat.ltb x y = true → PrimFloat.leb y x = false.
Proof.
  rewrite FloatAxioms.ltb_spec, FloatAxioms.leb_spec. unfold SFltb, SFleb.
  destruct (Prim2SF x) as [sx|sx| |sx mx ex], (Prim2SF y) as [sy|sy| |sy my ey];
    try destruct sx; try destruct sy; cbn [SFcompare]; try done;
    rewrite (Z.compare_antisym ex ey);
    change (Pos.compare_cont Eq mx my) with (Pos.compare mx my);
    change (Pos.compare_cont Eq my mx) with (Pos.compare my mx);
    rewrite (Pos.compare_antisym mx my);
    by destruct (ex ?= ey), (mx ?= my)%positive.
Qed.

(** ** float64: the squared distance does not depend on the direction of
    the displacement *)

Lemma SFopp_involutive x : SFopp (SFopp x) = x.
Proof. destruct x; cbn [SFopp]; by rewrite ?negb_involutive. Qed.

Lemma binary_round_aux_opp s m e l :
  binary_round_aux prec emax (negb s) m e l =
  SFopp (binary_round_aux prec emax s m e l).
Proof.
  unfold binary_round_aux.
  destruct (shr_fexp prec emax m e l) as [mrs' e'].
  destruct (shr_fexp prec emax _ e' loc_Exact) as [mrs'' e''].
  destruct (shr_m mrs''); [done| |done]. by destruct (_ <=? _).
Qed.

Lemma SF64mul_mirrored b x y :
  mirrored x y → mirrored (SF64mul b x) (SF64mul b y).
Proof.
  unfold SF64mul. intros [->|[Hx Hy]].
  - left. destruct b as [sb|sb| |sb mb eb], x as [sx|sx| |sx mx ex];
      cbn [SFmul SFopp]; try done; try (by destruct sb, sx).
    rewrite <- binary_round_aux_opp. by destruct sb, sx.
  - destruct x, y; try done.
    destruct b; cbn [SFmul]; [by right|by left|by left|by right].
Qed.

Lemma SF64mul_square x y : mirrored x y → SF64mul y y = SF64mul x x.
Proof.
  unfold SF64mul. intros [->|[Hx Hy]].
  - destruct x as [[]|[]| |[] m e]; by cbn [SFmul SFopp].
  - destruct x as [s| | |], y as [s'| | |]; try done.
    cbn [SFmul]. by destruct s, s'.
Qed.

Lemma binary_normalize_opp m e :
  mirrored (binary_normalize prec emax m e false)
           (binary_normalize prec emax (- m) e false).
Proof.
  destruct m as [|m|m]; unfold Z.opp; cbn [binary_normalize];
    [by right|left..].
  - unfold binary_round. destruct (shl_align _ _ _).
    apply (binary_round_aux_opp false).
  - unfold binary_round. destruct (shl_align _ _ _).
    by rewrite (binary_round_aux_opp false), SFopp_involutive.
Qed.

Lemma cond_Zopp_negb s m : cond_Zopp (negb s) m = - cond_Zopp s m.
Proof. destruct s; cbn [cond_Zopp negb]; lia. Qed.

Lemma SF64add_opp x y :
  mirrored (SF64add x y) (SF64add (SFopp x) (SFopp y)).
Proof.
  unfold SF64add.
  destruct x as [sx|sx| |sx mx ex], y as [sy|sy| |sy my ey];
    cbn [SFadd SFopp]; try (by left);
    try (destruct sx, sy; cbn [negb]; (by left) || (by right)).
  rewrite !cond_Zopp_negb, <- Z.opp_add_distr. apply binary_normalize_opp.
Qed.

Lemma SF64add_zero_l x y z z' :
  SFis_zero z → SFis_zero z' → mirrored x y →
  mirrored (SF64add z x) (SF64add z' y).
Proof.
  unfold SF64add. intros Hz Hz' [->|[Hx Hy]].
  - destruct z as [s| | |], z' as [s'| | |]; try done.
    destruct x as [sx|sx| |sx mx ex]; cbn [SFadd SFopp]; try (by left).
    right. by destruct s, s', sx.
  - destruct z as [s| | |], z' as [s'| | |], x as [sx| | |], y as [sy| | |];
      try done. right. cbn [SFadd]. by destruct s, s', sx, sy.
Qed.

Lemma SF64add_zero_r x y z z' :
  SFis_zero z → SFis_zero z' → mirrored x y →
  mirrored (SF64add x z) (SF64add y z').
Proof.
  unfold SF64add. intros Hz Hz' [->|[Hx Hy]].
  - destruct z as [s| | |], z' as [s'| | |]; try done.
    destruct x as [sx|sx| |sx mx ex]; cbn [SFadd SFopp]; try (by left).
    right. by destruct s, s', sx.
  - destruct z as [s| | |], z' as [s'| | |], x as [sx| | |], y as [sy| | |];
      try done. right. cbn [SFadd]. by destruct s, s', sx, sy.
Qed.

Lemma SF64add_mirrored x x' y y' :
  mirrored x x' → mirrored y y' → mirrored (SF64add x y) (SF64add x' y').
Proof.
  intros [->|[Hx Hx']] Hy.
  - destruct Hy as [->|[Hy Hy']]; [apply SF64add_opp|].
    apply SF64add_zero_r; [done..|by left].
  - by apply SF64add_zero_l.
Qed.

Lemma of_Z_opp (d : Z) :
  mirrored (Prim2SF (of_Z d)) (Prim2SF (of_Z (- d))).
Proof.
  cbn [of_Z float64].
  destruct (Z.ltb_spec d 0), (Z.ltb_spec (- d) 0); try lia.
  - left. by rewrite FloatAxioms.opp_spec, SFopp_involutive.
  - left. by rewrite FloatAxioms.opp_spec, Z.opp_involutive.
  - assert (d = 0) as -> by lia. by right.
Qed.

Lemma dot_mirrored (b r r' : float * float) :
  mirrored (Prim2SF r.1) (Prim2SF r'.1) →
  mirrored (Prim2SF r.2) (Prim2SF r'.2) →
  mirrored (Prim2SF (dot b r)) (Prim2SF (dot b r')).
Proof.
  intros H1 H2. unfold dot. cbn [fadd fmul float64].
  rewrite !FloatAxioms.add_spec, !FloatAxioms.mul_spec.
  by apply SF64add_mirrored; apply SF64mul_mirrored.
Qed.

Lemma square_mirrored (x y : float) :
  mirrored (Prim2SF x) (Prim2SF y) → PrimFloat.mul y y = PrimFloat.mul x x.
Proof.
  intros Hxy. apply Prim2SF_inj. rewrite !FloatAxioms.mul_spec.
  by apply SF64mul_square.
Qed.

(** The squared distance that the fill pass computes is the one of the
    specification.  The code takes the displacement from the origin to the
    cell, the specification from the cell to the origin; in IEEE arithmetic
    the two have the same squared norm. *)
Lemma sq_dist_to_transformed (basis : matrix float) (i j : Z) (o : coord) :
  sq_dist_to basis i j o = transformed_sq_distance basis (i, j) o.
Proof.
  unfold sq_dist_to, transformed_sq_distance, sq_norm, sq_euclidean,
    cart_rel_row, transform, rel_row, displacement.
  cbn [fst snd].
  set (r := (of_Z (i - o.1), of_Z (j - o.2)) : float * float).
  set (r' := (of_Z (o.1 - i), of_Z (o.2 - j)) : float * float).
  assert (H1 : mirrored (Prim2SF r.1) (Prim2SF r'.1)).
  { unfold r, r'. cbn [fst]. replace (o.1 - i) with (- (i - o.1)) by lia.
    apply of_Z_opp. }
  assert (H2 : mirrored (Prim2SF r.2) (Prim2SF r'.2)).
  { unfold r, r'. cbn [snd]. replace (o.2 - j) with (- (j - o.2)) by lia.
    apply of_Z_opp. }
  change (fadd (fmul (dot basis.1 r) (dot basis.1 r))
               (fmul (dot basis.2 r) (dot basis.2 r)) =
          dot (dot basis.1 r', dot basis.2 r') (dot basis.1 r', dot basis.2 r')).
  unfold dot at 5. cbn [fst snd fadd fmul float64].
  by rewrite (square_mirrored _ _ (dot_mirrored basis.1 r r' H1 H2)),
             (square_mirrored _ _ (dot_mirrored basis.2 r r' H1 H2)).
Qed.


(** ** Running computations *)

Lemma bind_run {A B} (m : M A) (k : A → M B) (t : tape) :
  (m ≫= k) t =
  match m t with
  | Ret a t' => k a t'
  | Raise e => Raise e
  | Pending => Pending
  end.
Proof. reflexivity. Qed.

Lemma bind_ret_inv {A B} (m : M A) (k : A → M B) t b t2 :
  (m ≫= k) t = Ret b t2 → ∃ a t1, m t = Ret a t1 ∧ k a t1 = Ret b t2.
Proof.
  rewrite bind_run. destruct (m t) as [a t1| |]; [eauto | done | done].
Qed.

Lemma bind_step {A B} (m : M A) (k : A → M B) t a t1 :
  m t = Ret a t1 → (m ≫= k) t = k a t1.
Proof. intros Hm. by rewrite bind_run, Hm. Qed.

(** ** Indexing *)

Lemma np_index_nat (len k : nat) :
  (k < len)%nat → np_index len (Z.of_nat k) = Some k.
Proof.
  intros Hk. unfold np_index.
  destruct (Z.leb_spec 0 (Z.of_nat k)); [|lia].
  destruct (Z.ltb_spec (Z.of_nat k) (Z.of_nat len)); [|lia].
  simpl. by rewrite Nat2Z.id.
Qed.

Lemma getitem_nat {A} (a : list A) (k : nat) (x : A) t :
  a !! k = Some x → getitem a (Z.of_nat k) t = Ret x t.
Proof.
  intros Hk. unfold getitem.
  rewrite np_index_nat by (by eapply lookup_lt_Some). by rewrite Hk.
Qed.

Lemma setitem_nat {A} (a : list A) (k : nat) (v : A) t :
  (k < length a)%nat → setitem a (Z.of_nat k) v t = Ret (<[k:=v]> a) t.
Proof. intros Hk. unfold setitem. by rewrite np_index_nat. Qed.

Lemma shape_cell a n m i j :
  shape a n m → (i < n)%nat → (j < m)%nat → is_Some (cell a i j).
Proof.
  intros [Hn Hm] Hi Hj. unfold cell.
  destruct (lookup_lt_is_Some_2 a i) as [row Hrow]; [lia|].
  rewrite Hrow. simpl. apply lookup_lt_is_Some_2.
  rewrite Forall_forall in Hm. rewrite (Hm row); [done|].
  by eapply list_elem_of_lookup_2.
Qed.

Lemma getitem2_nat a i j v t :
  cell a i j = Some v → getitem2 a (Z.of_nat i) (Z.of_nat j) t = Ret v t.
Proof.
  unfold cell, getitem2. intros Hc.
  destruct (a !! i) as [row|] eqn:Hrow; [|done]. simpl in Hc.
  rewrite (bind_step _ _ _ row t) by (by apply getitem_nat).
  by apply getitem_nat.
Qed.

Lemma setitem2_nat a i j v w t :
  cell a i j = Some w →
  setitem2 a (Z.of_nat i) (Z.of_nat j) v t = Ret (with_cell a i j v) t.
Proof.
  unfold cell, setitem2, with_cell. intros Hc.
  destruct (a !! i) as [row|] eqn:Hrow; [|done]. simpl in Hc.
  rewrite (bind_step _ _ _ row t) by (by apply getitem_nat).
  rewrite (bind_step _ _ _ (<[j:=v]> row) t)
    by (apply setitem_nat; by eapply lookup_lt_Some).
  apply setitem_nat. by eapply lookup_lt_Some.
Qed.

Lemma shape_with_cell a n m i j v :
  shape a n m → shape (with_cell a i j v) n m.
Proof.
  intros [Hn Hm]. unfold with_cell.
  destruct (a !! i) as [row|] eqn:Hrow; [|done].
  split; [by rewrite length_insert|].
  apply Forall_insert; [done|]. rewrite length_insert.
  rewrite Forall_forall in Hm. apply Hm.
  by eapply list_elem_of_lookup_2.
Qed.

Lemma cell_with_cell a i j v i' j' w :
  cell a i j = Some w →
  cell (with_cell a i j v) i' j' =
  if decide (i' = i ∧ j' = j) then Some v else cell a i' j'.
Proof.
  unfold cell, with_cell. intros Hc.
  destruct (a !! i) as [row|] eqn:Hrow; [|done]. simpl in Hc.
  destruct (decide (i' = i)) as [->|Hi].
  - rewrite list_lookup_insert_eq by (by eapply lookup_lt_Some). simpl.
    rewrite Hrow. simpl.
    destruct (decide (j' = j)) as [->|Hj].
    + rewrite list_lookup_insert_eq by (by eapply lookup_lt_Some).
      by rewrite decide_True.
    + rewrite list_lookup_insert_ne by done. by rewrite decide_False by tauto.
  - rewrite list_lookup_insert_ne by done. by rewrite decide_False by tauto.
Qed.

(** ** Loops *)

(** A loop whose body appends a list that depends on the item only. *)
Lemma for_each_append {A B} (xs : list A) (body : A → list B → M (list B))
    (h : A → list B) :
  (∀ x b t, x ∈ xs → body x b t = Ret (b ++ h x) t) →
  ∀ b t, for_each xs body b t = Ret (b ++ (xs ≫= h)) t.
Proof.
  induction xs as [|x xs IH]; intros Hbody b t; cbn [for_each].
  - by rewrite app_nil_r.
  - rewrite bind_cons, bind_run, Hbody by left.
    rewrite IH by (intros; apply Hbody; by right).
    by rewrite <- (assoc_L (++)).
Qed.

(** A loop that never makes its list longer by more than [c] a round. *)
Lemma for_each_length {A B} (xs : list A) (body : A → list B → M (list B))
    (c : nat) :
  (∀ x b t b' t', body x b t = Ret b' t' → (length b' ≤ length b + c)%nat) →
  ∀ b t b' t', for_each xs body b t = Ret b' t' →
    (length b' ≤ length b + length xs * c)%nat.
Proof.
  intros Hbody. induction xs as [|x xs IH]; intros b t b' t' Hrun; simpl in *.
  - injection Hrun as <- _. lia.
  - apply bind_ret_inv in Hrun as (b1 & t1 & H1 & H2).
    apply Hbody in H1. apply IH in H2. lia.
Qed.

(** ** Computations that leave the random source alone *)

Lemma tape_free_ret {A} (a : A) : tape_free (mret a).
Proof. by exists (inl a). Qed.

Lemma tape_free_raise {A} (e : exn) : tape_free (@raise A e).
Proof. by exists (inr e). Qed.

Lemma tape_free_bind {A B} (m : M A) (k : A → M B) :
  tape_free m → (∀ a, tape_free (k a)) → tape_free (m ≫= k).
Proof.
  intros [[a|e] Hm] Hk.
  - destruct (Hk a) as [r Hr]. exists r. intros t.
    rewrite bind_run, Hm. simpl. apply Hr.
  - exists (inr e). intros t. by rewrite bind_run, Hm.
Qed.

Lemma tape_free_for_each {A S} (xs : list A) (body : A → S → M S) :
  (∀ x s, tape_free (body x s)) → ∀ s, tape_free (for_each xs body s).
Proof.
  intros Hbody. induction xs as [|x xs IH]; intros s; simpl.
  - apply tape_free_ret.
  - by apply tape_free_bind.
Qed.

Lemma tape_free_getitem {A} (a : list A) i : tape_free (getitem a i).
Proof.
  unfold getitem. destruct (np_index _ _) as [k|]; [|apply tape_free_raise].
  destruct (a !! k); [apply tape_free_ret | apply tape_free_raise].
Qed.

Lemma tape_free_getitem2 a i j : tape_free (getitem2 a i j).
Proof.
  apply tape_free_bind; [apply tape_free_getitem|].
  intros row. apply tape_free_getitem.
Qed.

Lemma tape_free_differing_neighbor a grain nn :
  tape_free (differing_neighbor a grain nn).
Proof.
  induction nn as [|n nn IH]; simpl; [apply tape_free_ret|].
  apply tape_free_bind; [apply tape_free_getitem2|].
  intros v. case_bool_decide; [apply tape_free_ret | apply IH].
Qed.

Lemma tape_free_find_boundaries a nn_f : tape_free (find_boundaries a nn_f).
Proof.
  unfold find_boundaries.
  apply tape_free_for_each. intros i b.
  apply tape_free_for_each. intros j b'. unfold scan_cell.
  apply tape_free_bind; [apply tape_free_getitem2|]. intros grain.
  apply tape_free_bind; [apply tape_free_differing_neighbor|]. intros d.
  apply tape_free_ret.
Qed.

(** ** np.unique and np.clip *)

Lemma row_eqb_eq p q : row_eqb p q = true ↔ p = q.
Proof.
  destruct p as [a b], q as [c d]. unfold row_eqb. simpl.
  rewrite andb_true_iff, !Z.eqb_eq. split; [intros [-> ->]|intros [= -> ->]]; done.
Qed.

Lemma elem_of_insert_row x p l : x ∈ insert_row p l ↔ x = p ∨ x ∈ l.
Proof.
  induction l as [|q l IH]; simpl.
  - rewrite list_elem_of_singleton, elem_of_nil. tauto.
  - destruct (row_ltb p q); [by rewrite elem_of_cons|].
    destruct (row_eqb p q) eqn:Heq.
    + apply row_eqb_eq in Heq as ->. rewrite elem_of_cons. tauto.
    + rewrite !elem_of_cons, IH. tauto.
Qed.

Lemma elem_of_np_unique_rows x l : x ∈ np_unique_rows l ↔ x ∈ l.
Proof.
  induction l as [|p l IH]; simpl; [done|].
  by rewrite elem_of_insert_row, IH, elem_of_cons.
Qed.

Lemma np_clip_clamp (size : nat) x :
  (0 < size)%nat → np_clip 0 (Z.of_nat size - 1) x = clamp size x.
Proof.
  intros Hs. unfold np_clip, clamp.
  destruct (Z.ltb_spec x 0); [lia|].
  destruct (Z.ltb_spec (Z.of_nat size - 1) x); lia.
Qed.

Lemma clamp_range (size : nat) x :
  (0 < size)%nat → 0 ≤ clamp size x < Z.of_nat size.
Proof.
  intros Hs. unfold clamp.
  destruct (Z.ltb_spec x 0); [lia|].
  destruct (Z.ltb_spec (Z.of_nat size - 1) x); lia.
Qed.

Lemma elem_of_neighbors size nn_f i j q :
  (0 < size)%nat →
  q ∈ neighbors size nn_f i j ↔
  q ∈ clamp_coord size <$> nn_f (Z.of_nat i, Z.of_nat j).
Proof.
  intros Hs. unfold neighbors. rewrite elem_of_np_unique_rows.
  rewrite !list_elem_of_fmap. unfold clip_row, clamp_coord.
  by setoid_rewrite (np_clip_clamp size _ Hs).
Qed.

Lemma neighbors_in_range size nn_f i j q :
  (0 < size)%nat → q ∈ neighbors size nn_f i j →
  0 ≤ q.1 < Z.of_nat size ∧ 0 ≤ q.2 < Z.of_nat size.
Proof.
  intros Hs. rewrite elem_of_neighbors by done.
  intros (p & -> & _)%list_elem_of_fmap. simpl.
  split; by apply clamp_range.
Qed.

(** ** find_boundaries on a lattice at least as wide as it is high *)

Lemma getitem2_coord a (q : coord) v t :
  0 ≤ q.1 → 0 ≤ q.2 → grain_at a q = Some v → getitem2 a q.1 q.2 t = Ret v t.
Proof.
  intros H1 H2 Hq. unfold grain_at in Hq.
  rewrite <- (Z2Nat.id q.1), <- (Z2Nat.id q.2) by done.
  by apply getitem2_nat.
Qed.

Lemma grain_at_in_range a n m (q : coord) :
  shape a n m → 0 ≤ q.1 < Z.of_nat n → 0 ≤ q.2 < Z.of_nat m →
  is_Some (grain_at a q).
Proof. intros Ha H1 H2. eapply shape_cell; [done|lia|lia]. Qed.

Lemma differing_neighbor_run a n m grain nn t :
  shape a n m →
  Forall (λ q : coord, 0 ≤ q.1 < Z.of_nat n ∧ 0 ≤ q.2 < Z.of_nat m) nn →
  differing_neighbor a grain nn t =
  Ret (bool_decide (Exists (λ q, grain_at a q ≠ Some grain) nn)) t.
Proof.
  intros Ha. induction 1 as [|q nn [H1 H2] _ IH]; cbn [differing_neighbor].
  - by rewrite bool_decide_eq_false_2 by (by intros ?%Exists_nil).
  - destruct (grain_at_in_range a n m q Ha H1 H2) as [v Hv].
    rewrite bind_run, (getitem2_coord a q v) by (done || lia).
    destruct (decide (v = grain)) as [->|Hne].
    + rewrite (bool_decide_eq_false_2 (grain ≠ grain)) by (by intros ?).
      rewrite IH. f_equal. apply bool_decide_ext. rewrite Exists_cons, Hv.
      split; [tauto|]. by intros [?|?].
    + rewrite (bool_decide_eq_true_2 (v ≠ grain)) by done.
      rewrite bool_decide_eq_true_2; [reflexivity|].
      left. rewrite Hv. congruence.
Qed.

Lemma scan_cell_run a n m nn_f i j b t :
  shape a n m → (n ≤ m)%nat → (i < n)%nat → (j < n)%nat →
  scan_cell a nn_f n i j b t =
  Ret (if decide (boundary_site a nn_f (Z.of_nat i, Z.of_nat j))
       then b ++ [(Z.of_nat i, Z.of_nat j)] else b) t.
Proof.
  intros Ha Hnm Hi Hj. unfold scan_cell.
  destruct (shape_cell a n m i j Ha) as [g Hg]; [lia..|].
  rewrite bind_run, (getitem2_nat a i j g) by done.
  rewrite bind_run, (differing_neighbor_run a n m).
  - unfold mret, M_ret. f_equal.
    assert (Hiff : Exists (λ q, grain_at a q ≠ Some g) (neighbors n nn_f i j) ↔
                   boundary_site a nn_f (Z.of_nat i, Z.of_nat j)).
    { unfold boundary_site. rewrite !Exists_exists. destruct Ha as [-> _].
      assert (grain_at a (Z.of_nat i, Z.of_nat j) = Some g) as ->
        by (unfold grain_at; simpl; by rewrite !Nat2Z.id).
      by setoid_rewrite (elem_of_neighbors n nn_f i j _ ltac:(lia)). }
    case_bool_decide; case_decide; tauto.
  - done.
  - apply Forall_forall. intros q Hq.
    apply neighbors_in_range in Hq; [|lia]. lia.
Qed.

Lemma bind_if_filter {A B} (P : B → Prop) `{!∀ y, Decision (P y)}
    (g : A → B) (xs : list A) :
  xs ≫= (λ x, if decide (P (g x)) then [g x] else []) = filter P (g <$> xs).
Proof.
  induction xs as [|x xs IH]; [done|]. rewrite bind_cons, fmap_cons.
  rewrite filter_cons, IH. by case_decide.
Qed.

Lemma filter_bind {A B} (P : B → Prop) `{!∀ y, Decision (P y)}
    (f : A → list B) (xs : list A) :
  filter P (xs ≫= f) = xs ≫= (λ x, filter P (f x)).
Proof.
  induction xs as [|x xs IH]; [done|]. by rewrite !bind_cons, filter_app, IH.
Qed.

Lemma find_boundaries_run a n m nn_f t :
  shape a n m → (n ≤ m)%nat →
  find_boundaries a nn_f t = Ret (filter (boundary_site a nn_f) (row_major n)) t.
Proof.
  intros Ha Hnm. unfold find_boundaries. destruct (Ha) as [Hlen _]. rewrite Hlen.
  rewrite (for_each_append _ _
    (λ i, filter (boundary_site a nn_f)
            ((λ j, (Z.of_nat i, Z.of_nat j)) <$> range n))).
  - simpl. unfold row_major. by rewrite filter_bind.
  - intros i b t' Hi. apply elem_of_seq in Hi.
    rewrite (for_each_append _ _
      (λ j, if decide (boundary_site a nn_f (Z.of_nat i, Z.of_nat j))
            then [(Z.of_nat i, Z.of_nat j)] else [])).
    + by rewrite (bind_if_filter (boundary_site a nn_f)
                    (λ j, (Z.of_nat i, Z.of_nat j))).
    + intros j b' t'' Hj. apply elem_of_seq in Hj.
      rewrite (scan_cell_run a n m) by (done || lia).
      case_decide; [done|by rewrite app_nil_r].
Qed.

(** ** The row-major enumeration *)

Lemma elem_of_row_major size (p : coord) :
  p ∈ row_major size ↔
  0 ≤ p.1 < Z.of_nat size ∧ 0 ≤ p.2 < Z.of_nat size.
Proof.
  unfold row_major, range. rewrite list_elem_of_bind. split.
  - intros (i & (j & -> & Hj%elem_of_seq)%list_elem_of_fmap & Hi%elem_of_seq).
    simpl. lia.
  - intros [H1 H2]. exists (Z.to_nat p.1). split.
    + apply list_elem_of_fmap. exists (Z.to_nat p.2). split.
      * destruct p as [x y]. simpl in *. f_equal; lia.
      * apply elem_of_seq. lia.
    + apply elem_of_seq. lia.
Qed.

Lemma NoDup_row_major size : NoDup (row_major size).
Proof.
  unfold row_major, range. apply NoDup_bind.
  - intros i1 i2 p _ _ (j1 & -> & _)%list_elem_of_fmap
      (j2 & [= Hi _] & _)%list_elem_of_fmap. lia.
  - intros i _. apply NoDup_fmap_2; [|apply NoDup_seq].
    intros j1 j2 [= Hj]. lia.
  - apply NoDup_seq.
Qed.

Lemma length_row_major size : length (row_major size) = (size * size)%nat.
Proof.
  unfold row_major, range.
  assert (Hlen : ∀ l : list nat,
    length (l ≫= (λ i, (λ j, (Z.of_nat i, Z.of_nat j)) <$> seq 0 size)) =
    (length l * size)%nat).
  { induction l as [|i l IH]; [done|].
    rewrite bind_cons, length_app, IH, length_fmap, length_seq. simpl. lia. }
  by rewrite Hlen, length_seq.
Qed.

(** ** What find_boundaries guarantees *)

(** C5. On a fully labelled (square) lattice, for every neighbour function,
    [find_boundaries] returns exactly the coordinates whose grain-id differs
    from the grain-id of one of their clamped neighbours, each once, in
    row-major scan order. *)
Theorem find_boundaries_exact a size nn_f t :
  shape a size size →
  ∃ r, find_boundaries a nn_f t = Ret r t ∧
       r = filter (boundary_site a nn_f) (row_major size) ∧
       NoDup r ∧
       ∀ p : coord, p ∈ r ↔
         (0 ≤ p.1 < Z.of_nat size ∧ 0 ≤ p.2 < Z.of_nat size) ∧
         boundary_site a nn_f p.
Proof.
  intros Ha. eexists. split; [by apply (find_boundaries_run a size size)|].
  split; [done|]. split.
  - apply NoDup_filter, NoDup_row_major.
  - intros p. rewrite list_elem_of_filter, elem_of_row_major. tauto.
Qed.

Lemma find_boundaries_exact_witness :
  ∃ r, find_boundaries sample_lattice Notebook.nn_f [] = Ret r [] ∧
       r = filter (boundary_site sample_lattice Notebook.nn_f) (row_major 3) ∧
       NoDup r ∧
       ∀ p : coord, p ∈ r ↔
         (0 ≤ p.1 < Z.of_nat 3 ∧ 0 ≤ p.2 < Z.of_nat 3) ∧
         boundary_site sample_lattice Notebook.nn_f p.
Proof.
  apply (find_boundaries_exact sample_lattice 3 Notebook.nn_f []).
  split; [reflexivity | repeat constructor].
Defined.

(** C6, as the code has it.  [find_boundaries] checks nothing about its
    lattice: whenever no row is shorter than the number of rows, square or
    not, with or without cells that still hold the sentinel -1, it returns;
    the sentinel is compared like any other label, and of a lattice wider
    than high only the leading square is scanned. *)
Theorem find_boundaries_unchecked a rows cols nn_f t :
  shape a rows cols → (rows ≤ cols)%nat →
  ∃ r, find_boundaries a nn_f t = Ret r t ∧
       ∀ p : coord, p ∈ r ↔
         (0 ≤ p.1 < Z.of_nat rows ∧ 0 ≤ p.2 < Z.of_nat rows) ∧
         Exists (λ q, grain_at a q ≠ grain_at a p)
                (clamp_coord rows <$> nn_f p).
Proof.
  intros Ha Hle. eexists. split; [by apply (find_boundaries_run a rows cols)|].
  intros p. rewrite list_elem_of_filter, elem_of_row_major.
  unfold boundary_site. destruct Ha as [-> _]. tauto.
Qed.

Lemma find_boundaries_unchecked_witness :
  ∃ r, find_boundaries partly_unassigned Notebook.nn_f [] = Ret r [] ∧
       ∀ p : coord, p ∈ r ↔
         (0 ≤ p.1 < Z.of_nat 2 ∧ 0 ≤ p.2 < Z.of_nat 2) ∧
         Exists (λ q, grain_at partly_unassigned q ≠ grain_at partly_unassigned p)
                (clamp_coord 2 <$> Notebook.nn_f p).
Proof.
  apply (find_boundaries_unchecked partly_unassigned 2 2 Notebook.nn_f []).
  - split; [reflexivity | repeat constructor].
  - lia.
Defined.

(** C6 as stated fails: a lattice that still holds the sentinel, and one
    that is not square, both get a result instead of an error. *)
Lemma find_boundaries_accepts_invalid_lattice :
  -1 ∈ concat partly_unassigned ∧
  find_boundaries partly_unassigned Notebook.nn_f [] =
    Ret [(0, 0); (0, 1); (1, 0)] [] ∧
  find_boundaries wide_lattice Notebook.nn_f [] =
    Ret [(0, 1); (1, 0); (1, 1)] [].
Proof. split; [by left | split; reflexivity]. Qed.

Lemma scan_cell_length a nn_f size i j b t b' t' :
  scan_cell a nn_f size i j b t = Ret b' t' → (length b' ≤ length b + 1)%nat.
Proof.
  unfold scan_cell. intros (g & t1 & _ & Hrun)%bind_ret_inv.
  apply bind_ret_inv in Hrun as (d & t2 & _ & Hret).
  injection Hret as <- _. destruct d; rewrite ?length_app; simpl; lia.
Qed.

Lemma grain_at_uniform size v (q : coord) :
  0 ≤ q.1 < Z.of_nat size → 0 ≤ q.2 < Z.of_nat size →
  grain_at (replicate size (replicate size v)) q = Some v.
Proof.
  intros H1 H2. unfold grain_at, cell.
  rewrite lookup_replicate_2 by lia. simpl. apply lookup_replicate_2. lia.
Qed.

Lemma shape_uniform size v : shape (replicate size (replicate size v)) size size.
Proof.
  split; [apply length_replicate|].
  apply Forall_forall. intros row [-> _]%elem_of_replicate.
  apply length_replicate.
Qed.

(** C8. The sequence that [find_boundaries] returns is never longer than
    size², and on a lattice whose cells all hold the same id it is empty. *)
Theorem find_boundaries_bounded :
  (∀ a nn_f t r t',
     find_boundaries a nn_f t = Ret r t' →
     (length r ≤ length a * length a)%nat) ∧
  (∀ size v nn_f t,
     find_boundaries (replicate size (replicate size v)) nn_f t = Ret [] t).
Proof.
  split.
  - intros a nn_f t r t' Hrun. unfold find_boundaries in Hrun.
    apply (for_each_length _ _ (length a)) in Hrun.
    + unfold range in Hrun. rewrite length_seq in Hrun. simpl in Hrun. lia.
    + intros i b t1 b' t1' Hrow.
      apply (for_each_length _ _ 1) in Hrow.
      * unfold range in Hrow. rewrite length_seq in Hrow. lia.
      * intros j. apply scan_cell_length.
  - intros size v nn_f t.
    rewrite (find_boundaries_run _ size size) by (apply shape_uniform || lia).
    f_equal. apply elem_of_nil_inv. intros p.
    rewrite list_elem_of_filter, elem_of_row_major. intros [Hb [Hp1 Hp2]].
    unfold boundary_site in Hb. rewrite length_replicate in Hb.
    apply Exists_exists in Hb as (q & (q0 & -> & _)%list_elem_of_fmap & Hne).
    rewrite !grain_at_uniform in Hne; [done|lia..| |];
      simpl; apply clamp_range; lia.
Qed.

Lemma find_boundaries_bounded_witness :
  (length sample_boundaries ≤ length sample_lattice * length sample_lattice)%nat.
Proof.
  apply (proj1 find_boundaries_bounded sample_lattice Notebook.nn_f [] _ []).
  reflexivity.
Defined.

(** C9. [find_boundaries] draws nothing: whatever the state of the random
    source, two calls on the same lattice with the same neighbour function
    end the same way, with the same sequence, and leave the source as they
    found it. *)
Theorem find_boundaries_deterministic a nn_f t1 t2 :
  (∃ r, find_boundaries a nn_f t1 = Ret r t1 ∧
        find_boundaries a nn_f t2 = Ret r t2) ∨
  (∃ e, find_boundaries a nn_f t1 = Raise e ∧
        find_boundaries a nn_f t2 = Raise e).
Proof.
  destruct (tape_free_find_boundaries a nn_f) as [[r|e] Hrun].
  - left. exists r. by rewrite !Hrun.
  - right. exists e. by rewrite !Hrun.
Qed.

(** C10. On a square lattice every access of [find_boundaries] is in bounds:
    the cell under scan is, and every neighbour coordinate, however far
    outside the lattice the neighbour function put it, is clamped to a
    position the lattice has, so each lookup [lattice[n[0], n[1]]] finds a
    cell; [find_boundaries] raises nothing. *)
Theorem find_boundaries_in_bounds a size nn_f t :
  shape a size size →
  (∀ i j : nat, (i < size)%nat → (j < size)%nat →
     (∃ g, ∀ t', getitem2 a (Z.of_nat i) (Z.of_nat j) t' = Ret g t') ∧
     ∀ q : coord, q ∈ neighbors size nn_f i j →
       0 ≤ q.1 < Z.of_nat size ∧ 0 ≤ q.2 < Z.of_nat size ∧
       ∃ v, ∀ t', getitem2 a q.1 q.2 t' = Ret v t') ∧
  (∀ e, find_boundaries a nn_f t ≠ Raise e).
Proof.
  intros Ha. split.
  - intros i j Hi Hj. split.
    + destruct (shape_cell a size size i j Ha Hi Hj) as [g Hg].
      exists g. intros t'. by apply getitem2_nat.
    + intros q Hq. apply neighbors_in_range in Hq as [H1 H2]; [|lia].
      split; [done|]. split; [done|].
      destruct (grain_at_in_range a size size q Ha H1 H2) as [v Hv].
      exists v. intros t'. apply getitem2_coord; [lia|lia|done].
  - intros e. by rewrite (find_boundaries_run a size size).
Qed.

Lemma find_boundaries_in_bounds_witness :
  (∀ i j : nat, (i < 3)%nat → (j < 3)%nat →
     (∃ g, ∀ t', getitem2 sample_lattice (Z.of_nat i) (Z.of_nat j) t' = Ret g t') ∧
     ∀ q : coord, q ∈ neighbors 3 far_away i j →
       0 ≤ q.1 < Z.of_nat 3 ∧ 0 ≤ q.2 < Z.of_nat 3 ∧
       ∃ v, ∀ t', getitem2 sample_lattice q.1 q.2 t' = Ret v t') ∧
  (∀ e, find_boundaries sample_lattice far_away [] ≠ Raise e).
Proof.
  apply (find_boundaries_in_bounds sample_lattice 3 far_away []).
  split; [reflexivity | repeat constructor].
Defined.

(** ** Rules for specifications *)

Lemma within_ret {R A} (a : A) (Q : A → Prop) :
  Q a → within_unless R (mret a) 0 Q.
Proof. intros Ha t. split; [exact Ha|]. simpl. lia. Qed.

Lemma within_bind {R A B} (m : M A) (k : A → M B) c1 c2
    (Q1 : A → Prop) (Q2 : B → Prop) :
  within_unless R m c1 Q1 → (∀ a, Q1 a → within_unless R (k a) c2 Q2) →
  within_unless R (m ≫= k) (c1 + c2) Q2.
Proof.
  intros Hm Hk t. rewrite bind_run. specialize (Hm t).
  destruct (m t) as [a t1| |]; [|done|lia].
  destruct Hm as [Ha Hlen]. specialize (Hk a Ha t1).
  destruct (k a t1) as [b t2| |]; [|done|lia].
  split; [tauto|lia].
Qed.

Lemma within_mono {R A} (m : M A) c1 c2 (Q1 Q2 : A → Prop) :
  within_unless R m c1 Q1 → (c1 ≤ c2)%nat → (∀ a, Q1 a → Q2 a) →
  within_unless R m c2 Q2.
Proof.
  intros Hm Hc HQ t. specialize (Hm t).
  destruct (m t); [|done|lia]. split; [apply HQ; tauto|lia].
Qed.

(** What is allowed to raise less is allowed to raise more. *)
Lemma within_raises {R1 R2 : exn → Prop} {A} (m : M A) c (Q : A → Prop) :
  within_unless R1 m c Q → (∀ e, R1 e → R2 e) → within_unless R2 m c Q.
Proof.
  intros Hm HR t. specialize (Hm t). destruct (m t); [done|by apply HR|done].
Qed.

Lemma within_returns {A} (m : M A) c (Q : A → Prop) t :
  within m c Q → (c ≤ length t)%nat → ∃ a t', m t = Ret a t' ∧ Q a.
Proof.
  intros Hm Hlen. specialize (Hm t).
  destruct (m t) as [a t'| |]; [|done|lia]. exists a, t'. tauto.
Qed.

(** A loop with an invariant indexed by the number of rounds done. *)
Lemma within_for_each {R A St} (xs : list A) (body : A → St → M St) (c : nat)
    (I : nat → St → Prop) (s : St) :
  I 0%nat s →
  (∀ k x s, xs !! k = Some x → I k s → within_unless R (body x s) c (I (S k))) →
  within_unless R (for_each xs body s) (length xs * c) (I (length xs)).
Proof.
  revert I s. induction xs as [|x xs IH]; intros I s Hs Hbody.
  - by apply within_ret.
  - cbn [for_each length]. replace (S (length xs) * c)%nat
      with (c + length xs * c)%nat by lia.
    apply (within_bind _ _ _ _ (I 1%nat)).
    + by apply (Hbody 0%nat).
    + intros s' Hs'. apply (IH (λ k, I (S k))); [done|].
      intros k y s'' Hy. by apply (Hbody (S k)).
Qed.

(** ** Origin selection *)

Lemma grain_at_with_cell a (p q : coord) v w :
  0 ≤ p.1 → 0 ≤ p.2 → 0 ≤ q.1 → 0 ≤ q.2 → grain_at a p = Some w →
  grain_at (with_cell a (Z.to_nat p.1) (Z.to_nat p.2) v) q =
  if decide (q = p) then Some v else grain_at a q.
Proof.
  intros Hp1 Hp2 Hq1 Hq2 Hw. unfold grain_at in *.
  rewrite (cell_with_cell _ _ _ _ _ _ w) by done.
  destruct p as [p1 p2], q as [q1 q2]. simpl in *.
  repeat case_decide; try done.
  - destruct H0. f_equal; lia.
  - destruct H. injection H0 as -> ->. done.
Qed.

Lemma setitem2_coord a (p : coord) v w t :
  0 ≤ p.1 → 0 ≤ p.2 → grain_at a p = Some w →
  setitem2 a p.1 p.2 v t = Ret (with_cell a (Z.to_nat p.1) (Z.to_nat p.2) v) t.
Proof.
  intros H1 H2 Hp. unfold grain_at in Hp.
  rewrite <- (Z2Nat.id p.1) at 1 by done. rewrite <- (Z2Nat.id p.2) at 1 by done.
  by apply (setitem2_nat _ _ _ _ w).
Qed.

Lemma drawn_on_lattice size w0 w1 :
  (0 < size)%nat → on_lattice size (drawn size w0 w1).
Proof.
  intros Hs. unfold on_lattice, drawn. simpl.
  pose proof (Z.mod_pos_bound (Z.of_nat w0) (Z.of_nat size - 0)).
  pose proof (Z.mod_pos_bound (Z.of_nat w1) (Z.of_nat size - 0)). lia.
Qed.

Lemma randint_cons (size w : nat) t :
  (0 < size)%nat →
  randint 0 (Z.of_nat size) (w :: t) =
  Ret (0 + Z.of_nat w mod (Z.of_nat size - 0)) t.
Proof.
  intros Hs. unfold randint.
  by destruct (Z.leb_spec (Z.of_nat size) 0); [lia|].
Qed.

Lemma randint_nil (size : nat) :
  (0 < size)%nat → randint 0 (Z.of_nat size) [] = Pending.
Proof.
  intros Hs. unfold randint.
  by destruct (Z.leb_spec (Z.of_nat size) 0); [lia|].
Qed.

Lemma on_lattice_grain a size p :
  shape a size size → on_lattice size p → is_Some (grain_at a p).
Proof. intros Ha [H1 H2]. by apply (grain_at_in_range a size size). Qed.

Section OriginSelection.
Context (SIZE : nat) (HSIZE : (0 < SIZE)%nat).

Lemma select_done fuel (n k : nat) lat os t :
  ¬ (k < n)%nat →
  select_origins SIZE fuel (Z.of_nat n) lat os k t = Ret (lat, os) t.
Proof.
  intros Hk. destruct fuel; simpl;
    (destruct (Z.ltb_spec (Z.of_nat k) (Z.of_nat n)); [lia|done]).
Qed.

(** One round of the loop, on a state that still lacks origins. *)
Lemma select_step fuel (n k : nat) lat os t :
  origins_chosen SIZE n lat os k → (k < n)%nat →
  select_origins SIZE (S fuel) (Z.of_nat n) lat os k t =
  match t with
  | w0 :: w1 :: t' =>
      if bool_decide (drawn SIZE w0 w1 ∈ take k os) then
        select_origins SIZE fuel (Z.of_nat n) lat os k t'
      else
        select_origins SIZE fuel (Z.of_nat n)
          (accept lat os k (drawn SIZE w0 w1)).1
          (accept lat os k (drawn SIZE w0 w1)).2 (S k) t'
  | _ => Pending
  end.
Proof.
  intros Hinv Hk. cbn [select_origins].
  destruct (Z.ltb_spec (Z.of_nat k) (Z.of_nat n)) as [_|]; [|lia].
  destruct t as [|w0 [|w1 t']].
  - by rewrite bind_run, randint_nil.
  - by rewrite bind_run, randint_cons, bind_run, randint_nil.
  - rewrite bind_run, randint_cons, bind_run, randint_cons by done.
    fold (drawn SIZE w0 w1). case_bool_decide as Hin; [done|].
    pose proof (drawn_on_lattice SIZE w0 w1 HSIZE) as Hp.
    destruct (on_lattice_grain lat SIZE _ (chosen_shape _ _ _ _ _ Hinv) Hp)
      as [w Hw].
    destruct Hp as [[Hp1 _] [Hp2 _]].
    rewrite bind_run, setitem_nat
      by (rewrite (chosen_length _ _ _ _ _ Hinv); lia).
    pose proof (setitem2_coord lat _ (Z.of_nat k) w t' Hp1 Hp2 Hw) as Hset.
    rewrite bind_run. unfold drawn at 1 2 in Hset. cbn [fst snd] in Hset.
    by rewrite Hset.
Qed.
Lemma take_succ_insert (os : list coord) k p :
  (k < length os)%nat → take (S k) (<[k:=p]> os) = take k os ++ [p].
Proof.
  intros Hk. rewrite (take_S_r _ _ p) by (by apply list_lookup_insert_eq).
  by rewrite take_insert_ge.
Qed.

Lemma accept_chosen (n k : nat) lat os p :
  origins_chosen SIZE n lat os k → (k < n)%nat →
  on_lattice SIZE p → p ∉ take k os →
  origins_chosen SIZE n (accept lat os k p).1 (accept lat os k p).2 (S k).
Proof.
  intros [Hshape Hlen Hcount Hdist Hon Hown Hrest] Hk Hp Hfresh.
  destruct (on_lattice_grain lat SIZE p Hshape Hp) as [w Hw].
  assert (Htake : take (S k) (<[k:=p]> os) = take k os ++ [p])
    by (apply take_succ_insert; lia).
  unfold accept. cbn [fst snd]. split.
  - by apply shape_with_cell.
  - by rewrite length_insert.
  - lia.
  - rewrite Htake. apply NoDup_app. split; [done|]. split.
    + intros o Ho ->%list_elem_of_singleton. done.
    + apply NoDup_singleton.
  - rewrite Htake. intros o [Ho| ->%list_elem_of_singleton]%elem_of_app; auto.
  - intros k' o Hk' Ho. destruct (decide (k' = k)) as [->|Hne].
    + rewrite list_lookup_insert_eq in Ho by lia. injection Ho as <-.
      rewrite (grain_at_with_cell _ _ _ _ w) by (done || apply Hp).
      by rewrite decide_True.
    + rewrite list_lookup_insert_ne in Ho by done.
      assert (Hin : o ∈ take k os) by (apply elem_of_take; exists k'; split; [done|lia]).
      rewrite (grain_at_with_cell _ _ _ _ w) by (done || apply Hp || apply (Hon o Hin)).
      rewrite decide_False by (by intros ->). apply Hown; [lia|done].
  - rewrite Htake. intros q Hq Hnot.
    rewrite (grain_at_with_cell _ _ _ _ w) by (done || apply Hp || apply Hq).
    rewrite decide_False.
    + apply Hrest; [done|]. intros Hin. apply Hnot, elem_of_app. by left.
    + intros ->. apply Hnot, elem_of_app. right. by apply list_elem_of_singleton.
Qed.

Lemma initial_chosen (n : nat) :
  origins_chosen SIZE n (replicate SIZE (replicate SIZE (-1)))
    (replicate n (-1, -1)) 0.
Proof.
  split.
  - apply shape_uniform.
  - apply length_replicate.
  - lia.
  - apply NoDup_nil_2.
  - by intros o ?%elem_of_nil.
  - lia.
  - intros p [H1 H2] _. by apply grain_at_uniform.
Qed.

(** Whenever the loop ends, it ends with all [n] origins chosen; it raises
    nothing on the way. *)
Lemma select_origins_post fuel (n k : nat) lat os t :
  origins_chosen SIZE n lat os k →
  match select_origins SIZE fuel (Z.of_nat n) lat os k t with
  | Ret (lat', os') _ => origins_chosen SIZE n lat' os' n
  | Raise _ => False
  | Pending => True
  end.
Proof.
  revert k lat os t. induction fuel as [|fuel IH]; intros k lat os t Hinv.
  - destruct (decide (k < n)%nat) as [Hk|Hk].
    + simpl. by destruct (Z.ltb_spec (Z.of_nat k) (Z.of_nat n)); [|lia].
    + rewrite select_done by done.
      pose proof (chosen_count _ _ _ _ _ Hinv).
      by assert (k = n) as -> by lia.
  - destruct (decide (k < n)%nat) as [Hk|Hk].
    + rewrite select_step by done. destruct t as [|w0 [|w1 t']]; [done..|].
      case_bool_decide as Hin; [by apply IH|].
      apply IH, accept_chosen; [done..| |done].
      by apply drawn_on_lattice.
    + rewrite select_done by done.
      pose proof (chosen_count _ _ _ _ _ Hinv).
      by assert (k = n) as -> by lia.
Qed.

(** The rounds granted never cut the loop short: above the length of the
    tape, their number does not matter. *)
Lemma select_origins_fuel fuel1 fuel2 (n k : nat) lat os t :
  origins_chosen SIZE n lat os k →
  (length t < fuel1)%nat → (length t < fuel2)%nat →
  select_origins SIZE fuel1 (Z.of_nat n) lat os k t =
  select_origins SIZE fuel2 (Z.of_nat n) lat os k t.
Proof.
  revert fuel2 k lat os t.
  induction fuel1 as [|fuel1 IH]; intros fuel2 k lat os t Hinv H1 H2; [lia|].
  destruct fuel2 as [|fuel2]; [lia|].
  destruct (decide (k < n)%nat) as [Hk|Hk]; [|by rewrite !select_done].
  rewrite !select_step by done. destruct t as [|w0 [|w1 t']]; [done..|].
  simpl in H1, H2. case_bool_decide as Hin.
  - apply IH; [done|lia|lia].
  - apply IH; [|lia|lia]. apply accept_chosen; [done..| |done].
    by apply drawn_on_lattice.
Qed.
(** Distinct sites of the lattice are at most SIZE² many. *)
Lemma chosen_at_most (n k : nat) lat os :
  origins_chosen SIZE n lat os k → (k ≤ SIZE * SIZE)%nat.
Proof.
  intros [_ Hlen Hcount Hdist Hon _ _].
  rewrite <- (length_row_major SIZE), <- (length_take_le os k) by lia.
  apply submseteq_length, NoDup_submseteq; [done|].
  intros o Ho. apply elem_of_row_major, Hon, Ho.
Qed.

(** Below SIZE² of them, some site is still free. *)
Lemma fresh_site (os : list coord) :
  NoDup os → (length os < SIZE * SIZE)%nat →
  ∃ p, on_lattice SIZE p ∧ p ∉ os.
Proof.
  intros Hdist Hlen.
  destruct (decide (Forall (λ p, p ∈ os) (row_major SIZE))) as [Hall|Hsome].
  - rewrite Forall_forall in Hall.
    apply (NoDup_submseteq _ _ (NoDup_row_major SIZE)) in Hall.
    apply submseteq_length in Hall. rewrite length_row_major in Hall. lia.
  - apply not_Forall_Exists in Hsome; [|apply _].
    apply Exists_exists in Hsome as (p & Hp & Hnot).
    exists p. split; [by apply elem_of_row_major|done].
Qed.

Lemma drawn_to_nat (p : coord) :
  on_lattice SIZE p → drawn SIZE (Z.to_nat p.1) (Z.to_nat p.2) = p.
Proof.
  intros [H1 H2]. destruct p as [a b]. unfold drawn. simpl in *.
  rewrite !Z2Nat.id, !Z.sub_0_r, !Z.mod_small by lia. done.
Qed.

(** More grains than sites: the loop is left waiting by every tape. *)
Lemma select_never_completes fuel (n k : nat) lat os t :
  origins_chosen SIZE n lat os k → (SIZE * SIZE < n)%nat →
  select_origins SIZE fuel (Z.of_nat n) lat os k t = Pending.
Proof.
  revert k lat os t. induction fuel as [|fuel IH]; intros k lat os t Hinv Hn;
    pose proof (chosen_at_most _ _ _ _ Hinv) as Hk.
  - simpl. by destruct (Z.ltb_spec (Z.of_nat k) (Z.of_nat n)); [|lia].
  - rewrite select_step by (done || lia).
    destruct t as [|w0 [|w1 t']]; [done..|].
    case_bool_decide as Hin; [by apply IH|].
    apply IH; [|done]. apply accept_chosen; [done|lia| |done].
    by apply drawn_on_lattice.
Qed.

(** No more grains than sites: some draws complete the loop, and leave
    whatever tape follows them. *)
Lemma select_can_complete (n k : nat) lat os rest :
  origins_chosen SIZE n lat os k → (n ≤ SIZE * SIZE)%nat →
  ∃ t, ∀ fuel, (length (t ++ rest) < fuel)%nat →
    ∃ lat' os',
      select_origins SIZE fuel (Z.of_nat n) lat os k (t ++ rest) =
      Ret (lat', os') rest.
Proof.
  intros Hinv Hn. remember (n - k)%nat as d eqn:Hd.
  revert k lat os Hinv Hd. induction d as [|d IH]; intros k lat os Hinv Hd.
  - exists []. intros fuel _. exists lat, os. apply select_done. lia.
  - destruct (fresh_site (take k os)) as (p & Hp & Hfresh).
    { apply Hinv. }
    { rewrite length_take_le by (rewrite (chosen_length _ _ _ _ _ Hinv); lia). lia. }
    destruct (IH (S k) _ _ (accept_chosen n k lat os p Hinv ltac:(lia) Hp Hfresh))
      as [t Ht]; [lia|].
    exists (Z.to_nat p.1 :: Z.to_nat p.2 :: t). intros [|fuel] Hfuel; [lia|].
    simpl in Hfuel. rewrite select_step by (done || lia).
    cbn [app]. cbv beta iota. rewrite drawn_to_nat by done.
    rewrite bool_decide_eq_false_2 by done. apply Ht. lia.
Qed.
End OriginSelection.

(** ** The fill pass *)

Lemma choice_within {A} (a : list A) :
  a ≠ [] → within (choice a) 1 (λ x, x ∈ a).
Proof.
  intros Ha t. destruct a as [|x a]; [done|]. unfold choice.
  rewrite bind_run. destruct t as [|w t]; cbn [draw]; [simpl; lia|].
  split; [|simpl; lia]. apply list_elem_of_In, nth_In.
  apply Nat.mod_upper_bound. done.
Qed.

Section FillPass.
Context {F : Type} `{ScalarOrder F}.

Lemma fleb_refl (x : F) : npy_isnan x = false → fleb x x = true.
Proof. unfold npy_isnan. intros Hx%negb_false_iff. by apply feqb_fleb. Qed.

Lemma fleb_not_nan (x y : F) :
  fleb x y = true → npy_isnan x = false ∧ npy_isnan y = false.
Proof. intros [Hx Hy]%fleb_ordered. unfold npy_isnan. by rewrite Hx, Hy. Qed.

(** One step of the reduction gives one of its operands; where that is not
    NaN, it is below both. *)
Lemma fmin_cases (x y : F) :
  (fmin x y = x ∨ fmin x y = y) ∧
  (npy_isnan (fmin x y) = false →
   fleb (fmin x y) x = true ∧ fleb (fmin x y) y = true).
Proof.
  unfold fmin. destruct (fleb x y) eqn:Hxy; cbn [orb].
  - split; [by left|]. intros Hx. split; [by apply fleb_refl|done].
  - destruct (npy_isnan x) eqn:Hx.
    + split; [by left|]. congruence.
    + split; [by right|]. intros Hy. split; [|by apply fleb_refl].
      unfold npy_isnan in Hx, Hy. apply negb_false_iff in Hx, Hy.
      destruct (fleb_total x y Hx Hy); [congruence|done].
Qed.

(** [a.min()] is an entry of [a]; where it is not NaN, no entry is below
    it. *)
Lemma foldl_fmin (x : F) (a : list F) :
  foldl fmin x a ∈ x :: a ∧
  (npy_isnan (foldl fmin x a) = false →
   ∀ y, y ∈ x :: a → fleb (foldl fmin x a) y = true).
Proof.
  revert x. induction a as [|z a IH]; intros x; simpl.
  - split; [by left|]. intros Hx y ->%list_elem_of_singleton.
    by apply fleb_refl.
  - destruct (IH (fmin x z)) as [Hin Hle].
    destruct (fmin_cases x z) as [Hcase Hmin]. split.
    + apply elem_of_cons in Hin as [->|Hin].
      * destruct Hcase as [-> | ->]; [by left|by right; left].
      * by right; right.
    + intros Hm y Hy. specialize (Hle Hm).
      assert (Hxz : fleb (foldl fmin (fmin x z) a) (fmin x z) = true)
        by (apply Hle; by left).
      destruct (fleb_not_nan _ _ Hxz) as [_ Hnan].
      destruct (Hmin Hnan) as [Hx Hz].
      apply elem_of_cons in Hy as [->|Hy];
        [by apply (fleb_trans _ (fmin x z))|].
      apply elem_of_cons in Hy as [->|Hy];
        [by apply (fleb_trans _ (fmin x z))|].
      apply Hle. by right.
Qed.

Lemma elem_of_where_eq_from (k0 k : nat) (a : list F) (m : F) :
  k ∈ where_eq_from k0 a m ↔
  ∃ x, (k0 ≤ k)%nat ∧ a !! (k - k0)%nat = Some x ∧ feqb x m = true.
Proof.
  revert k0. induction a as [|y a IH]; intros k0; simpl.
  - rewrite elem_of_nil. split; [done|]. by intros (x & _ & ? & _).
  - assert (Htail : (∃ x, (S k0 ≤ k)%nat ∧ a !! (k - S k0)%nat = Some x ∧
                          feqb x m = true) ↔
                    (∃ x, (k0 ≤ k)%nat ∧ k ≠ k0 ∧
                          (y :: a) !! (k - k0)%nat = Some x ∧ feqb x m = true)).
    { split; intros (x & Hk & Hrest).
      - exists x. split; [lia|]. split; [lia|].
        by replace (k - k0)%nat with (S (k - S k0)) by lia.
      - destruct Hrest as (Hne & Hx & Hm). exists x. split; [lia|].
        by replace (k - k0)%nat with (S (k - S k0)) in Hx by lia. }
    destruct (feqb y m) eqn:Hy.
    + rewrite elem_of_cons, IH, Htail. split.
      * intros [->|(x & ? & ? & ? & ?)]; [|by eauto].
        exists y. rewrite Nat.sub_diag. done.
      * intros (x & Hk & Hx & Hm). destruct (decide (k = k0)) as [->|Hne];
          [by left|right; eauto].
    + rewrite IH, Htail. split.
      * intros (x & ? & ? & ? & ?); eauto.
      * intros (x & Hk & Hx & Hm). exists x.
        destruct (decide (k = k0)) as [->|Hne]; [|done].
        rewrite Nat.sub_diag in Hx. simpl in Hx. congruence.
Qed.

Lemma np_min_within (a : list F) :
  a ≠ [] →
  within (np_min a) 0
    (λ m, m ∈ a ∧ (npy_isnan m = false → ∀ y, y ∈ a → fleb m y = true)).
Proof.
  intros Ha. destruct a as [|x a]; [done|].
  apply within_ret, foldl_fmin.
Qed.

(** A minimum that is not NaN is found by [==]. *)
Lemma np_where_eq_elem (a : list F) (m : F) :
  m ∈ a → npy_isnan m = false → np_where_eq a m ≠ [].
Proof.
  intros [k Hk]%list_elem_of_lookup Hm Hnil.
  apply (elem_of_nil k). rewrite <- Hnil.
  apply elem_of_where_eq_from. exists m.
  rewrite Nat.sub_0_r. split; [lia|]. split; [done|].
  unfold npy_isnan in Hm. by apply negb_false_iff in Hm.
Qed.

(** NaN is found nowhere. *)
Lemma np_where_eq_nan (a : list F) (m : F) :
  npy_isnan m = true → np_where_eq a m = [].
Proof.
  intros Hm. destruct (np_where_eq a m) as [|k l] eqn:Hl; [done|].
  assert (Hk : k ∈ np_where_eq a m) by (rewrite Hl; by left).
  apply elem_of_where_eq_from in Hk as (x & _ & _ & Hx).
  apply feqb_fleb, fleb_not_nan in Hx as [_ Hx]. congruence.
Qed.

(** The body of the fill pass: one draw at most, and the cell ends up with
    its old label or, if it had none, with a nearest origin.  It raises
    only where a squared distance is NaN. *)
Lemma fill_cell_within (basis : matrix F) (os : list coord) (lat : grid)
    (size i j : nat) :
  os ≠ [] → shape lat size size → (i < size)%nat → (j < size)%nat →
  within_unless (nan_raised basis os i j) (fill_cell basis os i j lat) 1
    (λ lat', ∃ w, cell lat i j = Some w ∧
       ((w = -1 ∧ ∃ v, nearest basis os i j v ∧ lat' = with_cell lat i j v) ∨
        (w ≠ -1 ∧ lat' = lat))).
Proof.
  intros Hos Hshape Hi Hj.
  destruct (shape_cell lat size size i j Hshape Hi Hj) as [w Hw].
  unfold fill_cell. replace 1%nat with (0 + 1)%nat by done.
  apply (within_bind _ _ _ _ (λ v, v = w)).
  { intros t. rewrite (getitem2_nat _ _ _ w) by done. split; [done|lia]. }
  intros ? ->. destruct (Z.eqb_spec w (-1)) as [->|Hne].
  - set (sq := sq_dist basis (Z.of_nat i) (Z.of_nat j) os).
    replace 1%nat with (0 + (1 + 0))%nat by done.
    apply (within_bind _ _ _ _
      (λ m, m ∈ sq ∧ (npy_isnan m = false → ∀ y, y ∈ sq → fleb m y = true))).
    { eapply within_raises; [apply np_min_within|done].
      unfold sq, sq_dist. by destruct os. }
    intros m [Hm Hle]. destruct (npy_isnan m) eqn:Hnan.
    + intros t. rewrite bind_run, np_where_eq_nan by done.
      split; [done|]. unfold sq, sq_dist in Hm.
      apply list_elem_of_fmap in Hm as (o & -> & Ho). eauto.
    + apply (within_bind _ _ _ _ (λ k, k ∈ np_where_eq sq m)).
      { eapply within_raises; [by apply choice_within, np_where_eq_elem|done]. }
      intros k Hk t. rewrite (setitem2_nat _ _ _ _ (-1)) by done.
      split; [|lia]. exists (-1). split; [done|]. left. split; [done|].
      exists (Z.of_nat k). split; [|done].
      apply elem_of_where_eq_from in Hk as (x & _ & Hx & Hxm).
      unfold sq, sq_dist in *. rewrite Nat.sub_0_r, list_lookup_fmap in Hx.
      destruct (os !! k) as [ok|] eqn:Hok; [|done].
      injection Hx as <-. exists k, ok. split; [done|]. split; [done|].
      intros o' Ho'. apply (fleb_trans _ m); [by apply feqb_fleb|].
      apply Hle; [done|]. by apply list_elem_of_fmap_2.
  - intros t. split; [|lia]. exists w. split; [done|]. by right.
Qed.

Lemma row_major_index (size i j i' j' : nat) :
  (j < size)%nat → (j' < size)%nat →
  (i' * size + j' = i * size + j)%nat → i' = i ∧ j' = j.
Proof.
  intros Hj Hj' Heq.
  destruct (Nat.lt_trichotomy i' i) as [Hlt|[->|Hlt]]; [nia|lia|nia].
Qed.

(** One more cell done. *)
Lemma filled_step (basis : matrix F) (os : list coord) (lat0 lat lat' : grid)
    (size i j : nat) :
  (i < size)%nat → (j < size)%nat →
  filled size basis os lat0 (i * size + j) lat →
  (∃ w, cell lat i j = Some w ∧
     ((w = -1 ∧ ∃ v, nearest basis os i j v ∧ lat' = with_cell lat i j v) ∨
      (w ≠ -1 ∧ lat' = lat))) →
  filled size basis os lat0 (i * size + S j) lat'.
Proof.
  intros Hi Hj [Hshape Hcells] (w & Hw & Hcase).
  assert (Hw0 : cell lat0 i j = Some w).
  { destruct (Hcells i j Hi Hj) as [_ Hsame]. rewrite <- Hsame; [done|lia]. }
  assert (Hlat' : shape lat' size size ∧ ∃ v, cell lat' i j = Some v ∧
            assigned basis os lat0 i j v ∧
            ∀ i' j', ¬ (i' = i ∧ j' = j) → cell lat' i' j' = cell lat i' j').
  { destruct Hcase as [[-> (v & Hv & ->)]|[Hne ->]].
    - split; [by apply shape_with_cell|]. exists v. split.
      + rewrite (cell_with_cell _ _ _ _ _ _ (-1)) by done. by rewrite decide_True.
      + split; [unfold assigned; by rewrite Hw0|].
        intros i' j' Hother.
        rewrite (cell_with_cell _ _ _ _ _ _ (-1)) by done.
        by rewrite decide_False.
    - split; [done|]. exists w. split; [done|]. split; [|done].
      unfold assigned. rewrite Hw0.
      by destruct (Z.eqb_spec w (-1)). }
  destruct Hlat' as (Hshape' & v & Hv & Hassigned & Hother).
  split; [done|]. intros i' j' Hi' Hj'.
  destruct (decide (i' * size + j' = i * size + j)%nat) as [Heq|Hne].
  - apply row_major_index in Heq as [-> ->]; [|done..].
    split; [intros _; eauto|lia].
  - assert (Hdiff : ¬ (i' = i ∧ j' = j)) by (intros [-> ->]; done).
    destruct (Hcells i' j' Hi' Hj') as [Hdone Hsame].
    rewrite (Hother i' j' Hdiff). split; intros Hpos; [apply Hdone|apply Hsame]; lia.
Qed.

Lemma filled_start (basis : matrix F) (os : list coord) (lat0 : grid) size :
  shape lat0 size size → filled size basis os lat0 0 lat0.
Proof. intros Hshape. split; [done|]. intros i j _ _. split; [lia|done]. Qed.

(** The fill pass draws once a cell at most and labels every cell; it
    raises only where a squared distance is NaN. *)
Lemma fill_within (basis : matrix F) (os : list coord) (lat0 : grid) size :
  os ≠ [] → shape lat0 size size →
  within_unless (nan_raised_on size basis os) (fill size basis os lat0)
    (size * size) (filled size basis os lat0 (size * size)).
Proof.
  intros Hos Hshape. unfold fill.
  pose proof (within_for_each (R := nan_raised_on size basis os) (range size)
    (λ i lattice, for_each (range size) (fill_cell basis os i) lattice) size
    (λ k, filled size basis os lat0 (k * size)) lat0) as Houter.
  unfold range in *. rewrite length_seq in Houter. apply Houter.
  { by apply filled_start. }
  intros k i lat [-> Hk]%lookup_seq Hlat. simpl in Hlat |- *.
  pose proof (within_for_each (R := nan_raised_on size basis os)
    (seq 0 size) (fill_cell basis os k) 1
    (λ k', filled size basis os lat0 (k * size + k')) lat) as Hinner.
  rewrite length_seq in Hinner.
  replace (size * 1)%nat with size in Hinner by lia.
  replace (size + k * size)%nat with (k * size + size)%nat by lia.
  apply Hinner.
  { by rewrite Nat.add_0_r. }
  intros k' j lat1 [-> Hk']%lookup_seq Hlat1. simpl in Hlat1 |- *.
  eapply within_mono; [|done|intros lat2; by apply filled_step].
  eapply within_raises;
    [apply (fill_cell_within basis os lat1 size k k'); [done|apply Hlat1|done..]|].
  intros e He. by exists k, k'.
Qed.

(** A fill pass that returns has labelled every cell. *)
Lemma fill_ret (basis : matrix F) (os : list coord) (lat0 : grid) size
    t lat t' :
  os ≠ [] → shape lat0 size size →
  fill size basis os lat0 t = Ret lat t' →
  filled size basis os lat0 (size * size) lat.
Proof.
  intros Hos Hshape Hrun.
  pose proof (fill_within basis os lat0 size Hos Hshape t) as Hfill.
  rewrite Hrun in Hfill. tauto.
Qed.

(** Without a NaN among the squared distances the fill pass raises
    nothing. *)
Lemma fill_total (basis : matrix F) (os : list coord) (lat0 : grid) size :
  os ≠ [] → shape lat0 size size →
  (∀ (i j : nat) o, (i < size)%nat → (j < size)%nat → o ∈ os →
     npy_isnan (sq_dist_to basis (Z.of_nat i) (Z.of_nat j) o) = false) →
  within (fill size basis os lat0) (size * size)
    (filled size basis os lat0 (size * size)).
Proof.
  intros Hos Hshape Hnan.
  eapply within_raises; [by apply fill_within|].
  intros e (i & j & Hi & Hj & _ & o & Ho & Ho').
  rewrite (Hnan i j o Hi Hj Ho) in Ho'. done.
Qed.
End FillPass.

(** ** generate_lattice as a whole *)

Lemma shape_uniform_eq (a : grid) size v :
  shape a size size →
  (∀ i j, (i < size)%nat → (j < size)%nat → cell a i j = Some v) →
  a = replicate size (replicate size v).
Proof.
  intros [Hlen Hrows] Hcells. apply list_eq. intros i.
  destruct (decide (i < size)%nat) as [Hi|Hi].
  - rewrite lookup_replicate_2 by done.
    destruct (lookup_lt_is_Some_2 a i) as [row Hrow]; [lia|].
    rewrite Hrow. f_equal. apply list_eq. intros j.
    rewrite Forall_forall in Hrows.
    pose proof (Hrows row (list_elem_of_lookup_2 _ _ _ Hrow)) as Hrowlen.
    destruct (decide (j < size)%nat) as [Hj|Hj].
    + rewrite lookup_replicate_2 by done.
      specialize (Hcells i j Hi Hj). unfold cell in Hcells.
      by rewrite Hrow in Hcells.
    + rewrite lookup_ge_None_2 by lia.
      symmetry. apply lookup_replicate_None. lia.
  - rewrite lookup_ge_None_2 by lia.
    symmetry. apply lookup_replicate_None. lia.
Qed.

Lemma np_full_run {A} (n m : Z) (row : A) t :
  np_full n m row t =
  if decide (0 ≤ n ∧ 0 ≤ m ∧ nbytes [n; m] ≤ NPY_MAX_INTP)
  then Ret (replicate (Z.to_nat n) row) t
  else Raise ValueError.
Proof.
  unfold np_full.
  destruct (Z.ltb_spec n 0), (Z.ltb_spec m 0),
    (Z.ltb_spec NPY_MAX_INTP (nbytes [n; m]));
    cbn [orb]; case_decide; (done || lia).
Qed.

Lemma nbytes_rows (n m : Z) : 0 < n → 0 < m → nbytes [n; m] = 8 * n * m.
Proof.
  intros Hn Hm. unfold nbytes. cbn [foldl].
  by destruct (Z.eqb_spec n 0), (Z.eqb_spec m 0); try lia.
Qed.

Lemma nbytes_no_rows (m : Z) : 0 < m → nbytes [0; m] = 8 * m.
Proof.
  intros Hm. unfold nbytes. cbn [foldl].
  by destruct (Z.eqb_spec m 0); try lia.
Qed.

(** Room for the notebook's arrays, in plain numbers. *)
Lemma allocates_bound (SIZE : nat) (n_grains : Z) :
  (0 < SIZE)%nat → 0 ≤ n_grains →
  allocates SIZE n_grains ↔
  8 * Z.of_nat (SIZE * SIZE) ≤ NPY_MAX_INTP ∧ n_grains < 2 ^ 59.
Proof.
  intros HSIZE Hn. unfold allocates, NPY_MAX_INTP.
  rewrite nbytes_rows by lia.
  destruct (decide (n_grains = 0)) as [->|Hne].
  - rewrite nbytes_no_rows by lia. lia.
  - rewrite nbytes_rows by lia. lia.
Qed.

Section Generated.
Context {F : Type} `{Scalar F}.
Context (SIZE : nat).

(** Origin selection begins once numpy has allocated the two arrays. *)
Lemma choose_origins_run (n : nat) t :
  allocates SIZE (Z.of_nat n) →
  choose_origins SIZE (Z.of_nat n) t =
  select_origins SIZE (S (length t)) (Z.of_nat n)
    (replicate SIZE (replicate SIZE (-1))) (replicate n (-1, -1)) 0 t.
Proof.
  intros [Hlat Hos]. unfold choose_origins, select_all.
  rewrite bind_run, np_full_run, decide_True by lia.
  rewrite bind_run, np_full_run, decide_True by lia.
  by rewrite !Nat2Z.id.
Qed.

(** Where it does not, the call ends in ValueError. *)
Lemma choose_origins_refused n t :
  n < 0 ∨ ¬ allocates SIZE n → choose_origins SIZE n t = Raise ValueError.
Proof.
  intros Hn. unfold choose_origins. rewrite bind_run, np_full_run.
  case_decide as Hlat; [|done].
  rewrite bind_run, np_full_run. case_decide as Hos; [|done].
  unfold allocates in Hn. lia.
Qed.

(** A selection that returned was given both arrays, and has chosen its
    origins. *)
Lemma choose_origins_ret n_grains t st t' :
  (0 < SIZE)%nat →
  choose_origins SIZE n_grains t = Ret st t' →
  0 ≤ n_grains ∧ allocates SIZE n_grains ∧
  origins_chosen SIZE (Z.to_nat n_grains) st.1 st.2 (Z.to_nat n_grains).
Proof.
  intros HSIZE Hrun.
  assert (Hn : 0 ≤ n_grains ∧ allocates SIZE n_grains).
  { destruct (decide (0 ≤ n_grains)) as [Hpos|Hneg];
      [|rewrite choose_origins_refused in Hrun by lia; done].
    split; [done|].
    destruct (decide (allocates SIZE n_grains)) as [|Hbad]; [done|].
    rewrite choose_origins_refused in Hrun by (by right). done. }
  destruct Hn as [Hpos Halloc]. split; [done|]. split; [done|].
  set (n := Z.to_nat n_grains).
  assert (Hn : n_grains = Z.of_nat n) by (unfold n; lia).
  rewrite Hn in Hrun, Halloc. rewrite choose_origins_run in Hrun by done.
  pose proof (select_origins_post SIZE HSIZE (S (length t)) n
                0 _ _ t (initial_chosen SIZE HSIZE n)) as Hpost.
  rewrite Hrun in Hpost. by destruct st.
Qed.

(** With both arrays allocated, origin selection raises nothing. *)
Lemma choose_origins_post (n : nat) :
  (0 < SIZE)%nat → allocates SIZE (Z.of_nat n) →
  post (choose_origins SIZE (Z.of_nat n))
    (λ st, origins_chosen SIZE n st.1 st.2 n).
Proof.
  intros HSIZE Halloc t. rewrite choose_origins_run by done.
  pose proof (select_origins_post SIZE HSIZE (S (length t)) n 0 _ _ t
                (initial_chosen SIZE HSIZE n)) as Hpost.
  by destruct (select_origins _ _ _ _ _ _ _) as [[lat os] t'| |].
Qed.

(** With a single grain the first draw is accepted. *)
Lemma choose_origins_single :
  (0 < SIZE)%nat → allocates SIZE 1 →
  within (choose_origins SIZE 1) 2 (λ st, origins_chosen SIZE 1 st.1 st.2 1).
Proof.
  intros HSIZE Halloc t. rewrite (choose_origins_run 1) by done.
  rewrite (select_step SIZE HSIZE) by (by apply initial_chosen || lia).
  destruct t as [|w0 [|w1 t']]; [simpl; lia..|].
  rewrite bool_decide_eq_false_2 by (by intros ?%elem_of_nil).
  rewrite (select_done SIZE HSIZE _ 1 1) by lia. split; [|simpl; lia].
  apply (accept_chosen SIZE HSIZE 1 0); [by apply initial_chosen|lia| |].
  - by apply drawn_on_lattice.
  - by intros ?%elem_of_nil.
Qed.

(** Without grains the first cell has no distance to take the least of. *)
Lemma generate_lattice_no_grains size n_grains (basis : matrix F) t :
  (0 < SIZE)%nat → n_grains ≤ 0 →
  generate_lattice SIZE size n_grains basis t = Raise ValueError.
Proof.
  intros HSIZE Hn. unfold generate_lattice. rewrite bind_run.
  destruct (decide (n_grains < 0 ∨ ¬ allocates SIZE n_grains)) as [Hbad|Hok].
  - by rewrite choose_origins_refused.
  - assert (n_grains = Z.of_nat 0) as -> by lia.
    rewrite choose_origins_run by (apply dec_stable; tauto).
    rewrite (select_done SIZE HSIZE _ 0 0) by lia.
    destruct SIZE as [|s]; [lia|]. reflexivity.
Qed.

(** The cells of the returned lattice. *)
Lemma generated_cell (basis : matrix F) (n : nat) lat0 os lat i j :
  origins_chosen SIZE n lat0 os n →
  filled SIZE basis os lat0 (SIZE * SIZE) lat →
  (i < SIZE)%nat → (j < SIZE)%nat →
  ∃ v, cell lat i j = Some v ∧
    ((∃ k : nat, os !! k = Some (site i j) ∧ v = Z.of_nat k) ∨
     ((site i j ∉ os) ∧ nearest basis os i j v)).
Proof.
  intros [_ Hlen _ _ _ Hown Hrest] [_ Hcells] Hi Hj.
  destruct (Hcells i j Hi Hj) as [Hdone _].
  destruct Hdone as (v & Hv & Hassigned); [nia|].
  exists v. split; [done|]. unfold assigned in Hassigned.
  rewrite take_ge in Hrest by lia.
  destruct (decide (site i j ∈ os)) as [Hin|Hout].
  - left. apply list_elem_of_lookup in Hin as [k Hk]. exists k. split; [done|].
    assert (Hlt : (k < n)%nat) by (rewrite <- Hlen; by eapply lookup_lt_Some).
    pose proof (Hown k _ Hlt Hk) as Hcell. unfold grain_at, site in Hcell.
    simpl in Hcell. rewrite !Nat2Z.id in Hcell. rewrite Hcell in Hassigned.
    by destruct (Z.eqb_spec (Z.of_nat k) (-1)); [lia|].
  - right. split; [done|].
    pose proof (Hrest (site i j)) as Hcell.
    unfold grain_at, on_lattice, site in Hcell. simpl in Hcell.
    rewrite !Nat2Z.id in Hcell. rewrite Hcell in Hassigned by (done || lia).
    done.
Qed.

(** A run that returns has chosen its origins and filled the lattice. *)
Lemma generate_lattice_ret `{!ScalarOrder F} size n_grains (basis : matrix F)
    t lat t' :
  (0 < SIZE)%nat →
  generate_lattice SIZE size n_grains basis t = Ret lat t' →
  0 < n_grains ∧
  ∃ lat0 os t0,
    choose_origins SIZE n_grains t = Ret (lat0, os) t0 ∧
    origins_chosen SIZE (Z.to_nat n_grains) lat0 os (Z.to_nat n_grains) ∧
    filled SIZE basis os lat0 (SIZE * SIZE) lat.
Proof.
  intros HSIZE Hrun.
  destruct (decide (n_grains ≤ 0)) as [Hle|Hpos].
  { by rewrite generate_lattice_no_grains in Hrun. }
  split; [lia|]. unfold generate_lattice in Hrun.
  apply bind_ret_inv in Hrun as ([lat0 os] & t0 & Hchoose & Hfill).
  exists lat0, os, t0. split; [done|].
  destruct (choose_origins_ret _ _ _ _ HSIZE Hchoose) as (_ & _ & Hinv).
  split; [done|].
  assert (Hos : os ≠ []).
  { intros ->. pose proof (chosen_length _ _ _ _ _ Hinv). simpl in *. lia. }
  by apply (fill_ret basis os lat0 SIZE t0 lat t' Hos
              (chosen_shape _ _ _ _ _ Hinv)).
Qed.

(** With both arrays allocated and no NaN among the squared distances to
    the sites of the lattice, a call for one grain or more raises
    nothing and returns a lattice of SIZE x SIZE cells. *)
Lemma generate_lattice_post `{!ScalarOrder F} size n_grains
    (basis : matrix F) :
  (0 < SIZE)%nat → 0 < n_grains → allocates SIZE n_grains →
  (∀ (i j : nat) o, (i < SIZE)%nat → (j < SIZE)%nat → on_lattice SIZE o →
     npy_isnan (sq_dist_to basis (Z.of_nat i) (Z.of_nat j) o) = false) →
  post (generate_lattice SIZE size n_grains basis) (λ lat, shape lat SIZE SIZE).
Proof.
  intros HSIZE Hn Halloc Hnan t.
  unfold generate_lattice. rewrite bind_run.
  rewrite <- (Z2Nat.id n_grains) in Halloc |- * by lia.
  pose proof (choose_origins_post (Z.to_nat n_grains) HSIZE Halloc t) as Hpost.
  destruct (choose_origins SIZE _ t) as [[lat0 os] t0| |]; [|done..].
  simpl in Hpost.
  assert (Hos : os ≠ []).
  { intros ->. pose proof (chosen_length _ _ _ _ _ Hpost). simpl in *. lia. }
  pose proof (chosen_on_lattice _ _ _ _ _ Hpost) as Hon.
  rewrite take_ge in Hon by (rewrite (chosen_length _ _ _ _ _ Hpost); lia).
  pose proof (fill_total basis os lat0 SIZE Hos (chosen_shape _ _ _ _ _ Hpost)
                ltac:(intros; apply Hnan; auto) t0) as Hfill.
  destruct (fill SIZE basis os lat0 t0); [|done..]. apply Hfill.
Qed.
End Generated.

(** ** What generate_lattice guarantees *)

Section GenerateLatticeClaims.
Context {F : Type} `{Scalar F}.

(** C1, as the code has it.  [generate_lattice] checks nothing about
    [n_grains].  On a lattice with sites (SIZE > 0): with more grains than
    the lattice it builds has sites, and fewer than the 2^59 at which numpy
    refuses the origins array, the origin loop never completes: whatever the
    draws, the call neither returns nor raises.  With no grains, a negative
    number of them, or 2^59 and more, numpy raises ValueError. *)
Theorem generate_lattice_invalid_grain_count (SIZE : nat) (size n_grains : Z)
    (basis : matrix F) (t : tape) :
  (0 < SIZE)%nat →
  (Z.of_nat (SIZE * SIZE) < n_grains < 2 ^ 59 →
     generate_lattice SIZE size n_grains basis t = Pending) ∧
  (n_grains ≤ 0 ∨ 2 ^ 59 ≤ n_grains →
     generate_lattice SIZE size n_grains basis t = Raise ValueError).
Proof.
  intros HSIZE. split.
  - intros [Hn Hmax]. unfold generate_lattice. rewrite bind_run.
    assert (Halloc : allocates SIZE n_grains).
    { apply allocates_bound; [done|lia|]. unfold NPY_MAX_INTP. lia. }
    set (n := Z.to_nat n_grains).
    assert (Hnat : n_grains = Z.of_nat n) by (unfold n; lia).
    rewrite Hnat in Halloc |- *. rewrite choose_origins_run by done.
    rewrite (select_never_completes SIZE HSIZE); [done| |lia].
    by apply initial_chosen.
  - intros [Hn|Hn]; [by apply generate_lattice_no_grains|].
    unfold generate_lattice. rewrite bind_run, choose_origins_refused; [done|].
    right. rewrite allocates_bound by (done || lia). lia.
Qed.
End GenerateLatticeClaims.

(** The argmin that the fill pass takes is the one of the specification. *)
Lemma nearest_realizes_minimum (basis : matrix float) (os : list coord)
    (i j : nat) (v : Z) :
  nearest basis os i j v → realizes_minimum basis os (site i j) v.
Proof.
  intros (k & o & -> & Hk & Hle). exists k, o. split; [done|]. split; [done|].
  intros o' Ho'. unfold site. rewrite <- !sq_dist_to_transformed. by apply Hle.
Qed.

(** Without a NaN among the distances of the specification there is none
    among those the fill pass computes. *)
Lemma no_nan_sq_dist (SIZE : nat) (basis : matrix float) :
  no_nan_distance SIZE basis →
  ∀ (i j : nat) o, (i < SIZE)%nat → (j < SIZE)%nat → on_lattice SIZE o →
    npy_isnan (sq_dist_to basis (Z.of_nat i) (Z.of_nat j) o) = false.
Proof.
  intros Hnan i j o Hi Hj Ho. rewrite sq_dist_to_transformed.
  unfold no_nan_distance in Hnan. rewrite Forall_forall in Hnan.
  assert (Hp : (Z.of_nat i, Z.of_nat j) ∈ row_major SIZE).
  { apply elem_of_row_major. unfold on_lattice. simpl. lia. }
  specialize (Hnan _ Hp). rewrite Forall_forall in Hnan.
  apply Hnan. by apply elem_of_row_major.
Qed.

(** C3. In the lattice that [generate_lattice] returns, every cell that is
    not an origin holds the index of an origin of its argmin set: the
    squared Euclidean norm of the displacement from the cell to that origin,
    mapped through the basis, is least among all origins.  The distances
    are the float64 values, every product and sum rounded. *)
Theorem generate_lattice_nearest_origin (SIZE : nat) (size n_grains : Z)
    (basis : matrix float) (t : tape) (lat : grid) (t' : tape) :
  generate_lattice SIZE size n_grains basis t = Ret lat t' →
  ∃ lat0 os t0,
    choose_origins SIZE n_grains t = Ret (lat0, os) t0 ∧
    ∀ i j : nat, (i < SIZE)%nat → (j < SIZE)%nat → site i j ∉ os →
      ∃ v, cell lat i j = Some v ∧ realizes_minimum basis os (site i j) v.
Proof.
  intros Hrun. destruct (decide (0 < SIZE)%nat) as [HSIZE|Hzero].
  - apply generate_lattice_ret in Hrun
      as (_ & lat0 & os & t0 & Hsel & Hinv & Hfill); [|apply _|done].
    exists lat0, os, t0. split; [done|]. intros i j Hi Hj Hout.
    destruct (generated_cell SIZE basis _ _ _ _ i j Hinv Hfill Hi Hj)
      as (v & Hv & [(k & Hk & _)|[_ Hnear]]).
    + destruct Hout. by eapply list_elem_of_lookup_2.
    + exists v. split; [done|]. by apply nearest_realizes_minimum.
  - unfold generate_lattice in Hrun.
    apply bind_ret_inv in Hrun as ([lat0 os] & t0 & Hsel & _).
    exists lat0, os, t0. split; [done|]. intros i j Hi. lia.
Qed.

(** C7, as the code has it.  With one grain, on a lattice with sites that
    numpy allocates, and a basis under which no squared distance between
    two sites is NaN, [generate_lattice] returns the lattice whose cells all
    hold 0, for every [size]; it raises nothing, and is left waiting only
    when fewer than SIZE² + 2 draws are to be had. *)
Theorem generate_lattice_single_grain (SIZE : nat) (size : Z)
    (basis : matrix float) (t : tape) :
  (0 < SIZE)%nat → allocates SIZE 1 → no_nan_distance SIZE basis →
  match generate_lattice SIZE size 1 basis t with
  | Ret lat _ => lat = replicate SIZE (replicate SIZE 0)
  | Raise _ => False
  | Pending => (length t < SIZE * SIZE + 2)%nat
  end.
Proof.
  intros HSIZE Halloc Hnan.
  assert (Hgen : within (generate_lattice SIZE size 1 basis) (2 + SIZE * SIZE)
            (λ lat, lat = replicate SIZE (replicate SIZE 0))).
  { unfold generate_lattice.
    apply (within_bind _ _ 2 (SIZE * SIZE)
             (λ st, origins_chosen SIZE 1 st.1 st.2 1));
      [by apply choose_origins_single|].
    intros [lat0 os] Hinv. simpl in Hinv.
    assert (Hos : os ≠ []).
    { intros ->. pose proof (chosen_length _ _ _ _ _ Hinv). done. }
    pose proof (chosen_on_lattice _ _ _ _ _ Hinv) as Hon.
    rewrite take_ge in Hon by (rewrite (chosen_length _ _ _ _ _ Hinv); lia).
    apply (within_mono _ (SIZE * SIZE) (SIZE * SIZE)
             (filled SIZE basis os lat0 (SIZE * SIZE))); [|done|].
    { apply fill_total; [done|apply Hinv|].
      intros i j o Hi Hj Ho. apply (no_nan_sq_dist SIZE); auto. }
    intros lat Hfill. apply shape_uniform_eq; [apply Hfill|].
    intros i j Hi Hj.
    destruct (generated_cell SIZE basis _ _ _ _ i j Hinv Hfill Hi Hj)
      as (v & Hv & [(k & Hk & ->)|[_ (k & o & -> & Hk & _)]]);
      apply lookup_lt_Some in Hk;
      rewrite (chosen_length _ _ _ _ _ Hinv) in Hk;
      by assert (k = 0)%nat as -> by lia. }
  specialize (Hgen t).
  destruct (generate_lattice SIZE size 1 basis t); [tauto|done|lia].
Qed.

Section GenerateLatticeFacts.
Context {F : Type} `{ScalarOrder F}.

(** X1. Every cell of the returned lattice holds a grain-id of [[0, n_grains)];
    the lattice has the extent of the module-level SIZE. *)
Lemma generate_lattice_labels (SIZE : nat) (size n_grains : Z)
    (basis : matrix F) t lat t' :
  (0 < SIZE)%nat →
  generate_lattice SIZE size n_grains basis t = Ret lat t' →
  shape lat SIZE SIZE ∧
  ∀ i j : nat, (i < SIZE)%nat → (j < SIZE)%nat →
    ∃ v, cell lat i j = Some v ∧ 0 ≤ v < n_grains.
Proof.
  intros HSIZE Hrun.
  apply generate_lattice_ret in Hrun
    as (Hn & lat0 & os & t0 & _ & Hinv & Hfill); [|done..].
  split; [apply Hfill|]. intros i j Hi Hj.
  destruct (generated_cell SIZE basis _ _ _ _ i j Hinv Hfill Hi Hj)
    as (v & Hv & [(k & Hk & ->)|[_ (k & o & -> & Hk & _)]]);
    exists (Z.of_nat k); (split; [done|]);
    apply lookup_lt_Some in Hk;
    rewrite (chosen_length _ _ _ _ _ Hinv) in Hk; lia.
Qed.

(** X2. The origins of a run that returns are distinct sites of the SIZE x SIZE
    lattice, and the cell of each holds its index. *)
Lemma generate_lattice_origins (SIZE : nat) (size n_grains : Z)
    (basis : matrix F) t lat t' :
  (0 < SIZE)%nat →
  generate_lattice SIZE size n_grains basis t = Ret lat t' →
  ∃ lat0 os t0,
    choose_origins SIZE n_grains t = Ret (lat0, os) t0 ∧
    length os = Z.to_nat n_grains ∧ NoDup os ∧
    (∀ o, o ∈ os → on_lattice SIZE o) ∧
    ∀ (k : nat) o, os !! k = Some o → grain_at lat o = Some (Z.of_nat k).
Proof.
  intros HSIZE Hrun.
  apply generate_lattice_ret in Hrun
    as (Hn & lat0 & os & t0 & Hsel & Hinv & Hfill); [|done..].
  exists lat0, os, t0. split; [done|].
  pose proof (chosen_length _ _ _ _ _ Hinv) as Hlen.
  pose proof (chosen_distinct _ _ _ _ _ Hinv) as Hdist.
  pose proof (chosen_on_lattice _ _ _ _ _ Hinv) as Hon.
  rewrite take_ge in Hdist, Hon by lia.
  split; [done|]. split; [done|]. split; [done|].
  intros k o Hk.
  destruct (Hon o (list_elem_of_lookup_2 _ _ _ Hk)) as [Ho1 Ho2].
  assert (Hsite : site (Z.to_nat o.1) (Z.to_nat o.2) = o).
  { destruct o as [a b]. unfold site. simpl in *. f_equal; lia. }
  destruct (generated_cell SIZE basis _ _ _ _ (Z.to_nat o.1) (Z.to_nat o.2)
              Hinv Hfill) as (v & Hv & Hcase); [lia..|].
  rewrite Hsite in Hcase. unfold grain_at. rewrite Hv. f_equal.
  destruct Hcase as [(k' & Hk' & ->)|[Hout _]].
  - f_equal. by apply (NoDup_lookup os k' k o).
  - destruct Hout. by eapply list_elem_of_lookup_2.
Qed.

End GenerateLatticeFacts.

(** X3. For every grain count the lattice has room for, some draws make the
    call return: on a lattice with sites, with both arrays allocated and no
    squared distance NaN. *)
Lemma generate_lattice_can_return (SIZE : nat) (size : Z) (n : nat)
    (basis : matrix float) :
  (0 < SIZE)%nat → (0 < n ≤ SIZE * SIZE)%nat →
  allocates SIZE (Z.of_nat n) → no_nan_distance SIZE basis →
  ∃ t lat t', generate_lattice SIZE size (Z.of_nat n) basis t = Ret lat t'.
Proof.
  intros HSIZE [Hpos Hn] Halloc Hnan.
  destruct (select_can_complete SIZE HSIZE n 0 _ _ (replicate (SIZE * SIZE) 0%nat)
              (initial_chosen SIZE HSIZE n) Hn) as [t1 Hsel].
  set (t := t1 ++ replicate (SIZE * SIZE) 0%nat) in *.
  destruct (Hsel (S (length t))) as (lat0 & os & Hrun); [lia|].
  pose proof (select_origins_post SIZE HSIZE (S (length t)) n 0 _ _ t
                (initial_chosen SIZE HSIZE n)) as Hinv.
  rewrite Hrun in Hinv.
  assert (Hos : os ≠ []).
  { intros ->. pose proof (chosen_length _ _ _ _ _ Hinv). simpl in *. lia. }
  pose proof (chosen_on_lattice _ _ _ _ _ Hinv) as Hon.
  rewrite take_ge in Hon by (rewrite (chosen_length _ _ _ _ _ Hinv); lia).
  destruct (within_returns _ _ _ (replicate (SIZE * SIZE) 0%nat)
              (fill_total basis os lat0 SIZE Hos (chosen_shape _ _ _ _ _ Hinv)
                 ltac:(intros; apply (no_nan_sq_dist SIZE); auto)))
    as (lat & t' & Hfill & _); [by rewrite length_replicate|].
  exists t, lat, t'. unfold generate_lattice.
  by rewrite bind_run, choose_origins_run, Hrun.
Qed.

(** ** The claims on sample runs *)

Lemma generate_lattice_invalid_grain_count_witness :
  generate_lattice 2 2 5 Notebook.identity [0; 1; 1; 0; 3; 3]%nat = Pending ∧
  generate_lattice 2 2 0 Notebook.identity [0; 1; 1; 0; 3; 3]%nat
    = Raise ValueError ∧
  generate_lattice 2 2 (2 ^ 63) Notebook.identity [0; 1; 1; 0; 3; 3]%nat
    = Raise ValueError.
Proof.
  split; [|split].
  - apply (generate_lattice_invalid_grain_count 2 2 5 Notebook.identity
             [0; 1; 1; 0; 3; 3]%nat); [lia|]. split; reflexivity.
  - apply (generate_lattice_invalid_grain_count 2 2 0 Notebook.identity
             [0; 1; 1; 0; 3; 3]%nat); [lia|]. left. lia.
  - apply (generate_lattice_invalid_grain_count 2 2 (2 ^ 63) Notebook.identity
             [0; 1; 1; 0; 3; 3]%nat); [lia|]. right. by vm_compute.
Defined.

(** C1 as stated fails.  The call of the specification's own example,
    [generate_lattice(size=3, n_grains=10, basis=identity)], reports no
    error: it returns a lattice.  And with one grain more than the notebook's
    lattice has sites, a run is still waiting for an origin when its draws
    are used up; no error is reported then either. *)
Lemma generate_lattice_accepts_ten_grains :
  length <$> returned (generate_lattice Notebook.SIZE 3 10 Notebook.identity
                         ten_origins_tape) = Some 40%nat ∧
  generate_lattice Notebook.SIZE 40 1601 Notebook.identity ten_origins_tape
    = Pending.
Proof. split; vm_compute; reflexivity. Qed.

Lemma generate_lattice_nearest_origin_witness :
  ∃ lat0 os t0,
    choose_origins 3 2 corner_tape = Ret (lat0, os) t0 ∧
    ∀ i j : nat, (i < 3)%nat → (j < 3)%nat → site i j ∉ os →
      ∃ v, cell [[0; 0; 0]; [0; 1; 1]; [1; 1; 1]] i j = Some v ∧
           realizes_minimum Notebook.identity os (site i j) v.
Proof.
  apply (generate_lattice_nearest_origin 3 3 2 Notebook.identity corner_tape
           [[0; 0; 0]; [0; 1; 1]; [1; 1; 1]] []).
  reflexivity.
Defined.

Lemma generate_lattice_single_grain_witness :
  match generate_lattice 2 2 1 Notebook.identity [1; 0; 7; 7; 7; 7]%nat with
  | Ret lat _ => lat = replicate 2 (replicate 2 0)
  | Raise _ => False
  | Pending => (length [1; 0; 7; 7; 7; 7]%nat < 2 * 2 + 2)%nat
  end.
Proof.
  apply (generate_lattice_single_grain 2 2 Notebook.identity [1; 0; 7; 7; 7; 7]%nat).
  - lia.
  - split; by vm_compute.
  - apply (bool_decide_unpack (no_nan_distance 2 Notebook.identity)).
    by vm_compute.
Defined.

(** C7 as stated fails.  With the basis [[2^1023, -2^1023], [0, 0]] the cell
    (2, 2) of the notebook's lattice is at the squared distance
    (inf - inf)² = NaN from the origin (0, 0); NaN is the minimum, no distance
    equals it, and [np.random.choice] of no candidate raises ValueError. *)
Lemma generate_lattice_single_grain_overflow :
  generate_lattice Notebook.SIZE 40 1 overflowing_basis (replicate 100 0%nat)
    = Raise ValueError ∧
  transformed_sq_distance overflowing_basis (2, 2) (0, 0) = nan.
Proof. split; vm_compute; reflexivity. Qed.

(** The distances of C3 are float64 values, and rounding can tie two
    origins that exact arithmetic tells apart.  Under the basis
    [[2^30, 0], [0, 1]] the cell (1, 0) is at 2^60 from the origin (0, 0) and
    at 2^60 + 1 from the origin (2, 1); float64 rounds the latter to 2^60,
    both are the minimum, and the draw gives the cell to the second. *)
Example rounding_ties_origins :
  transformed_sq_distance stretched_basis (1, 0) (0, 0) = 0x1p60%float ∧
  transformed_sq_distance stretched_basis (1, 0) (2, 1) = 0x1p60%float ∧
  returned (generate_lattice 3 3 2 stretched_basis tie_tape)
    = Some [[0; 0; 0]; [1; 1; 1]; [1; 1; 1]].
Proof. repeat split; vm_compute; reflexivity. Qed.

(** C2 on the code: the lattice has the extent of the module-level SIZE,
    not of the argument [size].  [generate_lattice(3, 2, identity)] returns
    40 rows of 40 cells. *)
Lemma generate_lattice_ignores_size :
  (λ lat, (length lat, length <$> lat !! 0%nat)) <$>
    returned (generate_lattice Notebook.SIZE 3 2 Notebook.identity two_origins_tape)
  = Some (40%nat, Some 40%nat).
Proof. vm_compute. reflexivity. Qed.

(** C4 on the code: in the same call the origins are drawn from all of the
    SIZE x SIZE lattice; here both lie outside [0, 3) x [0, 3). *)
Lemma generate_lattice_origins_beyond_size :
  snd <$> returned (choose_origins Notebook.SIZE 2 two_origins_tape)
    = Some [(17, 25); (3, 38)] ∧
  is_Some (returned (generate_lattice Notebook.SIZE 3 2 Notebook.identity
                       two_origins_tape)) ∧
  ¬ on_lattice 3 (17, 25) ∧ ¬ on_lattice 3 (3, 38).
Proof.
  split; [vm_compute; reflexivity|]. split; [vm_compute; eauto|].
  unfold on_lattice. simpl. lia.
Qed.

(** The notebook's own two calls, on draws that suit them. *)
Example notebook_run :
  length <$> returned (Notebook.grain_boundaries ten_origins_tape)
  = Some 189%nat.
Proof. vm_compute. reflexivity. Qed.

(** * Further properties of the code *)

(** ** generate_lattice: errors and edge cases *)

Lemma for_each_unchanged {A St} (xs : list A) (body : A → St → M St) (s : St) :
  (∀ x t, x ∈ xs → body x s t = Ret s t) →
  ∀ t, for_each xs body s t = Ret s t.
Proof.
  induction xs as [|x xs IH]; intros Hbody t; [done|].
  cbn [for_each]. rewrite bind_run, Hbody by left.
  apply IH. intros y t' Hy. apply Hbody. by right.
Qed.

(** Origins that fill a room of SIZE² sites leave no site out. *)
Lemma all_sites_chosen (SIZE : nat) (os : list coord) (p : coord) :
  NoDup os → (∀ o, o ∈ os → on_lattice SIZE o) →
  length os = (SIZE * SIZE)%nat → on_lattice SIZE p → p ∈ os.
Proof.
  intros Hdist Hon Hlen Hp. destruct (decide (p ∈ os)) as [|Hout]; [done|].
  assert (Hsub : p :: os ⊆+ row_major SIZE).
  { apply NoDup_submseteq; [by constructor|].
    intros q [->|Hq]%elem_of_cons; apply elem_of_row_major; [done|by apply Hon]. }
  apply submseteq_length in Hsub. rewrite length_row_major in Hsub.
  simpl in Hsub. lia.
Qed.

Section GenerateLatticeEdges.
Context {F : Type} `{Scalar F}.

(** What a finished run leaves in the cell of an origin. *)
Lemma origin_cell (SIZE : nat) (basis : matrix F) (n : nat) lat0 os lat
    (k : nat) (o : coord) :
  origins_chosen SIZE n lat0 os n →
  filled SIZE basis os lat0 (SIZE * SIZE) lat →
  os !! k = Some o →
  on_lattice SIZE o ∧ grain_at lat o = Some (Z.of_nat k).
Proof.
  intros Hinv Hfill Hk.
  pose proof (chosen_length _ _ _ _ _ Hinv) as Hlen.
  pose proof (chosen_distinct _ _ _ _ _ Hinv) as Hdist.
  pose proof (chosen_on_lattice _ _ _ _ _ Hinv) as Hon.
  rewrite take_ge in Hdist, Hon by lia.
  pose proof (Hon o (list_elem_of_lookup_2 _ _ _ Hk)) as Ho.
  split; [done|]. destruct Ho as [Ho1 Ho2].
  assert (Hsite : site (Z.to_nat o.1) (Z.to_nat o.2) = o).
  { destruct o as [a b]. unfold site. simpl in *. f_equal; lia. }
  destruct (generated_cell SIZE basis _ _ _ _ (Z.to_nat o.1) (Z.to_nat o.2)
              Hinv Hfill) as (v & Hv & Hcase); [lia..|].
  rewrite Hsite in Hcase. unfold grain_at. rewrite Hv. f_equal.
  destruct Hcase as [(k' & Hk' & ->)|[Hout _]].
  - f_equal. by apply (NoDup_lookup os k' k o).
  - destruct Hout. by eapply list_elem_of_lookup_2.
Qed.

(** X4. For a grain count of one or more, on a lattice with sites, with
    both arrays allocated and no squared distance NaN, [generate_lattice]
    raises nothing, whatever the draws: a run ends with a lattice or is
    still waiting for draws. *)
Theorem generate_lattice_never_raises (SIZE : nat) (size n_grains : Z)
    (basis : matrix float) (t : tape) (e : exn) :
  (0 < SIZE)%nat → 0 < n_grains →
  allocates SIZE n_grains → no_nan_distance SIZE basis →
  generate_lattice SIZE size n_grains basis t ≠ Raise e.
Proof.
  intros HSIZE Hn Halloc Hnan Hrun.
  pose proof (generate_lattice_post SIZE size n_grains basis HSIZE Hn Halloc
                (no_nan_sq_dist SIZE basis Hnan) t) as Hpost.
  by rewrite Hrun in Hpost.
Qed.

(** X5. On a lattice without sites (SIZE = 0) a call for one grain or more
    fails with ValueError in the first [randint(0, 0)], and a call for no
    grain returns the empty lattice without a draw. *)
Theorem generate_lattice_empty_lattice (size n_grains : Z) (basis : matrix F)
    (t : tape) :
  (0 < n_grains → generate_lattice 0 size n_grains basis t = Raise ValueError) ∧
  (n_grains = 0 → generate_lattice 0 size n_grains basis t = Ret [] t).
Proof.
  split.
  - intros Hn. unfold generate_lattice. rewrite bind_run.
    destruct (decide (nbytes [n_grains; 2] ≤ NPY_MAX_INTP)) as [Hos|Hos].
    + set (n := Z.to_nat n_grains).
      assert (Hnat : n_grains = Z.of_nat n) by (unfold n; lia).
      rewrite Hnat in Hos |- *.
      rewrite choose_origins_run by (split; [by vm_compute|done]).
      cbn [select_origins].
      by destruct (Z.ltb_spec (Z.of_nat 0) (Z.of_nat n)); [|lia].
    + rewrite choose_origins_refused; [done|]. right. by intros [_ ?].
  - intros ->. reflexivity.
Qed.

(** X6. Every grain of the returned lattice has a cell: each id of
    [[0, n_grains)] is the label of at least one site, the site of its
    origin. *)
Theorem generate_lattice_every_grain `{!ScalarOrder F} (SIZE : nat)
    (size n_grains : Z) (basis : matrix F) t lat t' (k : Z) :
  (0 < SIZE)%nat →
  generate_lattice SIZE size n_grains basis t = Ret lat t' →
  0 ≤ k < n_grains →
  ∃ i j : nat, (i < SIZE)%nat ∧ (j < SIZE)%nat ∧ cell lat i j = Some k.
Proof.
  intros HSIZE Hrun Hk.
  apply generate_lattice_ret in Hrun
    as (Hn & lat0 & os & t0 & Hsel & Hinv & Hfill); [|done..].
  destruct (lookup_lt_is_Some_2 os (Z.to_nat k)) as [o Ho].
  { rewrite (chosen_length _ _ _ _ _ Hinv). lia. }
  destruct (origin_cell SIZE basis _ _ _ _ _ _ Hinv Hfill Ho) as [[Ho1 Ho2] Hcell].
  exists (Z.to_nat o.1), (Z.to_nat o.2). split; [lia|]. split; [lia|].
  unfold grain_at in Hcell. rewrite Hcell. f_equal. lia.
Qed.

(** X7. The draws only matter at ties: a cell that is no origin and has one
    origin strictly nearer than every other, in the float64 values of the
    transformed squared distances, is labelled with that origin's index in
    every run. *)
Theorem generate_lattice_unique_nearest (SIZE : nat) (size n_grains : Z)
    (basis : matrix float) t lat t' :
  (0 < SIZE)%nat →
  generate_lattice SIZE size n_grains basis t = Ret lat t' →
  ∃ lat0 os t0,
    choose_origins SIZE n_grains t = Ret (lat0, os) t0 ∧
    ∀ (i j k : nat) (o : coord),
      (i < SIZE)%nat → (j < SIZE)%nat → site i j ∉ os → os !! k = Some o →
      (∀ (k' : nat) o', os !! k' = Some o' → k' ≠ k →
         PrimFloat.ltb (transformed_sq_distance basis (site i j) o)
                       (transformed_sq_distance basis (site i j) o') = true) →
      cell lat i j = Some (Z.of_nat k).
Proof.
  intros HSIZE Hrun.
  apply generate_lattice_ret in Hrun
    as (Hn & lat0 & os & t0 & Hsel & Hinv & Hfill); [|apply _|done].
  exists lat0, os, t0. split; [done|]. intros i j k o Hi Hj Hout Hk Hstrict.
  destruct (generated_cell SIZE basis _ _ _ _ i j Hinv Hfill Hi Hj)
    as (v & Hv & [(k1 & Hk1 & _)|[_ Hnear]]).
  - destruct Hout. by eapply list_elem_of_lookup_2.
  - apply nearest_realizes_minimum in Hnear as (k1 & o1 & -> & Hk1 & Hle).
    rewrite Hv. do 2 f_equal. destruct (decide (k1 = k)) as [|Hne]; [done|].
    specialize (Hle o (list_elem_of_lookup_2 _ _ _ Hk)).
    specialize (Hstrict k1 o1 Hk1 Hne). apply float_ltb_not_leb in Hstrict.
    cbn [fleb float64] in Hle. congruence.
Qed.

(** X8. With as many grains as sites every cell is an origin: the fill pass
    changes nothing and draws nothing, so the lattice returned is the one
    origin selection left, each cell holding the index of its own origin. *)
Theorem generate_lattice_full (SIZE : nat) (size : Z) (basis : matrix F)
    t lat t' :
  (0 < SIZE)%nat →
  generate_lattice SIZE size (Z.of_nat (SIZE * SIZE)) basis t = Ret lat t' →
  ∃ os,
    choose_origins SIZE (Z.of_nat (SIZE * SIZE)) t = Ret (lat, os) t' ∧
    ∀ i j : nat, (i < SIZE)%nat → (j < SIZE)%nat →
      ∃ k : nat, os !! k = Some (site i j) ∧ cell lat i j = Some (Z.of_nat k).
Proof.
  intros HSIZE Hrun. unfold generate_lattice in Hrun.
  apply bind_ret_inv in Hrun as ([lat0 os] & t0 & Hsel & Hfill).
  destruct (choose_origins_ret SIZE _ _ _ _ HSIZE Hsel) as (_ & _ & Hinv).
  rewrite Nat2Z.id in Hinv. simpl in Hinv.
  destruct Hinv as [Hshape Hlen _ Hdist Hon Hown _].
  rewrite take_ge in Hdist, Hon by lia.
  assert (Hcells : ∀ i j : nat, (i < SIZE)%nat → (j < SIZE)%nat →
            ∃ k : nat, os !! k = Some (site i j) ∧
                       cell lat0 i j = Some (Z.of_nat k)).
  { intros i j Hi Hj.
    assert (Hin : site i j ∈ os).
    { apply (all_sites_chosen SIZE); [done..|]. unfold on_lattice, site. simpl. lia. }
    apply list_elem_of_lookup in Hin as [k Hk]. exists k. split; [done|].
    assert (Hlt : (k < SIZE * SIZE)%nat) by (rewrite <- Hlen; by eapply lookup_lt_Some).
    pose proof (Hown k _ Hlt Hk) as Hcell. unfold grain_at, site in Hcell.
    simpl in Hcell. by rewrite !Nat2Z.id in Hcell. }
  assert (Hnoop : fill SIZE basis os lat0 t0 = Ret lat0 t0).
  { unfold fill. apply for_each_unchanged. intros i t1 Hi%elem_of_seq.
    apply for_each_unchanged. intros j t2 Hj%elem_of_seq.
    destruct (Hcells i j) as (k & _ & Hcell); [lia..|].
    unfold fill_cell. rewrite bind_run, (getitem2_nat _ _ _ _ _ Hcell).
    by destruct (Z.eqb_spec (Z.of_nat k) (-1)); [lia|]. }
  rewrite Hnoop in Hfill. injection Hfill as <- <-.
  by exists os.
Qed.
End GenerateLatticeEdges.

(** ** find_boundaries and the neighbour function *)

Lemma find_boundaries_member a size nn_f t r t' (p : coord) :
  shape a size size → find_boundaries a nn_f t = Ret r t' →
  p ∈ r ↔ on_lattice size p ∧ boundary_site a nn_f p.
Proof.
  intros Ha Hrun. rewrite (find_boundaries_run a size size) in Hrun by done.
  injection Hrun as <- _.
  rewrite list_elem_of_filter, elem_of_row_major. unfold on_lattice. tauto.
Qed.

Lemma filter_sublist_impl {A} (P Q : A → Prop)
    `{!∀ x, Decision (P x), !∀ x, Decision (Q x)} (l : list A) :
  (∀ x, P x → Q x) → filter P l `sublist_of` filter Q l.
Proof.
  intros HPQ. induction l as [|x l IH]; [done|]. rewrite !filter_cons.
  destruct (decide (P x)) as [HP|HP].
  - rewrite decide_True by auto. by constructor.
  - destruct (decide (Q x)); [by constructor|done].
Qed.

(** X12. A larger neighbourhood only adds boundary sites: when every clamped
    neighbour under [nn_f] is one under [nn_g], the sequence found with
    [nn_f] is a subsequence of the one found with [nn_g]. *)
Theorem find_boundaries_monotone a size nn_f nn_g t :
  shape a size size →
  (∀ p q : coord, q ∈ clamp_coord size <$> nn_f p →
                  q ∈ clamp_coord size <$> nn_g p) →
  ∃ r_f r_g,
    find_boundaries a nn_f t = Ret r_f t ∧
    find_boundaries a nn_g t = Ret r_g t ∧
    r_f `sublist_of` r_g.
Proof.
  intros Ha Hsub. do 2 eexists.
  split; [by apply (find_boundaries_run a size size)|].
  split; [by apply (find_boundaries_run a size size)|].
  apply filter_sublist_impl. intros p. unfold boundary_site.
  destruct (Ha) as [-> _]. rewrite !Exists_exists.
  intros (q & Hq & Hne). exists q. split; [by apply Hsub|done].
Qed.

(** X13. [find_boundaries] sees the neighbour function only through the set
    of clamped neighbours: neighbour functions that agree on it, whatever
    the order, the repeats or the positions outside the lattice, give the
    same sequence. *)
Theorem find_boundaries_neighbour_set a size nn_f nn_g t :
  shape a size size →
  (∀ p q : coord, q ∈ clamp_coord size <$> nn_f p ↔
                  q ∈ clamp_coord size <$> nn_g p) →
  find_boundaries a nn_f t = find_boundaries a nn_g t.
Proof.
  intros Ha Hset. rewrite !(find_boundaries_run a size size) by done.
  f_equal. apply list_filter_iff. intros p. unfold boundary_site.
  destruct (Ha) as [-> _]. rewrite !Exists_exists.
  split; intros (q & Hq & Hne); exists q; (split; [by apply Hset|done]).
Qed.

Lemma grain_at_relabel (f : Z → Z) (a : grid) (p : coord) :
  grain_at (relabel f a) p = f <$> grain_at a p.
Proof.
  unfold grain_at, cell, relabel. rewrite list_lookup_fmap.
  destruct (a !! Z.to_nat p.1) as [row|]; [|done]. simpl.
  apply list_lookup_fmap.
Qed.

Lemma shape_relabel (f : Z → Z) (a : grid) n m :
  shape a n m → shape (relabel f a) n m.
Proof.
  intros [Hn Hm]. unfold relabel. split; [by rewrite length_fmap|].
  apply Forall_fmap. eapply Forall_impl; [done|].
  intros row Hrow. simpl. by rewrite length_fmap.
Qed.

(** X14. The boundary depends on the partition into grains, not on the ids:
    renaming the grain-ids by an injective map leaves the sequence found
    unchanged. *)
Theorem find_boundaries_relabel (f : Z → Z) a size nn_f t :
  Inj (=) (=) f → shape a size size →
  find_boundaries (relabel f a) nn_f t = find_boundaries a nn_f t.
Proof.
  intros Hinj Ha.
  rewrite (find_boundaries_run a size size) by done.
  rewrite (find_boundaries_run _ size size) by (by apply shape_relabel || done).
  f_equal. apply list_filter_iff. intros p. unfold boundary_site.
  replace (length (relabel f a)) with (length a)
    by (unfold relabel; by rewrite length_fmap).
  rewrite !Exists_exists. 
  assert (Hne : ∀ q, grain_at (relabel f a) q ≠ grain_at (relabel f a) p ↔
                     grain_at a q ≠ grain_at a p).
  { intros q. rewrite !grain_at_relabel. split; intros Hne Heq; apply Hne.
    - by rewrite Heq.
    - destruct (grain_at a q) as [x|], (grain_at a p) as [y|];
        simpl in Heq; try done.
      injection Heq as Heq. f_equal. by apply Hinj. }
  split; intros (q & Hq & Hq'); exists q; (split; [done|by apply Hne]).
Qed.

(** ** find_boundaries with the notebook's four neighbours *)

Lemma clamp_same (n j : nat) :
  (j < n)%nat → Z.to_nat (clamp n (Z.of_nat j + 0)) = j.
Proof.
  intros Hj. unfold clamp.
  destruct (Z.ltb_spec (Z.of_nat j + 0) 0); [lia|].
  destruct (Z.ltb_spec (Z.of_nat n - 1) (Z.of_nat j + 0)); lia.
Qed.

Lemma clamp_before (n j : nat) :
  (j < n)%nat → Z.to_nat (clamp n (Z.of_nat j + -1)) = (j - 1)%nat.
Proof.
  intros Hj. unfold clamp.
  destruct (Z.ltb_spec (Z.of_nat j + -1) 0); [lia|].
  destruct (Z.ltb_spec (Z.of_nat n - 1) (Z.of_nat j + -1)); lia.
Qed.

Lemma clamp_after (n j : nat) :
  (j < n)%nat → Z.to_nat (clamp n (Z.of_nat j + 1)) = Nat.min (S j) (n - 1).
Proof.
  intros Hj. unfold clamp.
  destruct (Z.ltb_spec (Z.of_nat j + 1) 0); [lia|].
  destruct (Z.ltb_spec (Z.of_nat n - 1) (Z.of_nat j + 1)); lia.
Qed.

(** With the four neighbours of the notebook, clamping makes a cell on the
    edge its own neighbour, which never differs from itself: a site is a
    boundary site exactly when a cell next to it inside the lattice holds
    another id. *)
Lemma von_neumann_site a size (i j : nat) :
  shape a size size → (i < size)%nat → (j < size)%nat →
  boundary_site a Notebook.nn_f (site i j) ↔
  ∃ i' j' : nat, (i' < size)%nat ∧ (j' < size)%nat ∧
    adjacent i j i' j' ∧ cell a i' j' ≠ cell a i j.
Proof.
  intros [Hlen _] Hi Hj. unfold boundary_site, Notebook.nn_f, site.
  rewrite Hlen, !fmap_cons, fmap_nil.
  rewrite !Exists_cons, Exists_nil. unfold grain_at, clamp_coord.
  cbn [fst snd]. rewrite !clamp_same, !clamp_before, !clamp_after by done.
  rewrite !Nat2Z.id. unfold adjacent. split.
  - intros [Hne|[Hne|[Hne|[Hne|[]]]]].
    + exists i, (j - 1)%nat. split; [lia|]. split; [lia|]. split; [|done].
      left. split; [done|]. right.
      destruct j; [by destruct Hne|lia].
    + exists (i - 1)%nat, j. split; [lia|]. split; [lia|]. split; [|done].
      right. split; [done|]. right.
      destruct i; [by destruct Hne|lia].
    + exists i, (Nat.min (S j) (size - 1)). split; [lia|]. split; [lia|].
      split; [|done]. left. split; [done|]. left.
      destruct (decide (S j < size)%nat); [lia|].
      destruct Hne. f_equal. lia.
    + exists (Nat.min (S i) (size - 1)), j. split; [lia|]. split; [lia|].
      split; [|done]. right. split; [done|]. left.
      destruct (decide (S i < size)%nat); [lia|].
      destruct Hne. f_equal; lia.
  - intros (i' & j' & Hi' & Hj' & Hadj & Hne).
    destruct Hadj as [[-> [->| ->]]|[-> [->| ->]]].
    + right; right; left. by replace (Nat.min (S j) (size - 1)) with (S j) by lia.
    + left. by replace (S j' - 1)%nat with j' by lia.
    + right; right; right; left.
      by replace (Nat.min (S i) (size - 1)) with (S i) by lia.
    + right; left. by replace (S i' - 1)%nat with i' by lia.
Qed.

Lemma adjacent_sym i j i' j' : adjacent i j i' j' → adjacent i' j' i j.
Proof. unfold adjacent. lia. Qed.

(** X15. With the notebook's neighbour function a site is reported exactly
    when some cell next to it in its row or column, inside the lattice,
    holds another grain-id; the clamped neighbours of edge cells add
    nothing. *)
Theorem find_boundaries_von_neumann a size t :
  shape a size size →
  ∃ r, find_boundaries a Notebook.nn_f t = Ret r t ∧
    ∀ i j : nat, (i < size)%nat → (j < size)%nat →
      (site i j ∈ r ↔
       ∃ i' j' : nat, (i' < size)%nat ∧ (j' < size)%nat ∧
         adjacent i j i' j' ∧ cell a i' j' ≠ cell a i j).
Proof.
  intros Ha. eexists. split; [by apply (find_boundaries_run a size size)|].
  intros i j Hi Hj. rewrite <- (von_neumann_site a size i j) by done.
  rewrite list_elem_of_filter, elem_of_row_major. unfold site. simpl.
  split; [tauto|]. intros Hb. split; [done|lia].
Qed.

(** X16. Boundary sites come in pairs: next to every site reported with the
    notebook's neighbour function lies a reported site of another grain. *)
Theorem find_boundaries_two_sided a size t r t' (i j : nat) :
  shape a size size →
  find_boundaries a Notebook.nn_f t = Ret r t' →
  (i < size)%nat → (j < size)%nat → site i j ∈ r →
  ∃ i' j' : nat, (i' < size)%nat ∧ (j' < size)%nat ∧ adjacent i j i' j' ∧
    cell a i' j' ≠ cell a i j ∧ site i' j' ∈ r.
Proof.
  intros Ha Hrun Hi Hj Hin.
  apply (find_boundaries_member a size _ _ _ _ _ Ha Hrun) in Hin as [_ Hb].
  apply (von_neumann_site a size i j Ha Hi Hj) in Hb
    as (i' & j' & Hi' & Hj' & Hadj & Hne).
  exists i', j'. split; [done|]. split; [done|]. split; [done|]. split; [done|].
  apply (find_boundaries_member a size _ _ _ _ _ Ha Hrun). split.
  - unfold on_lattice, site. simpl. lia.
  - apply (von_neumann_site a size i' j' Ha Hi' Hj').
    exists i, j. split; [done|]. split; [done|].
    split; [by apply adjacent_sym|done].
Qed.

(** X17. With the notebook's neighbour function the sequence is empty
    exactly on a lattice of a single grain: any two different ids somewhere
    in the lattice make some site a boundary site. *)
Theorem find_boundaries_empty_iff_uniform a size t :
  shape a size size →
  find_boundaries a Notebook.nn_f t = Ret [] t ↔
  ∀ i j i' j' : nat, (i < size)%nat → (j < size)%nat →
    (i' < size)%nat → (j' < size)%nat → cell a i j = cell a i' j'.
Proof.
  intros Ha. rewrite (find_boundaries_run a size size) by done. split.
  - intros [= Hnil].
    assert (Hadj : ∀ i j i' j' : nat, (i < size)%nat → (j < size)%nat →
              (i' < size)%nat → (j' < size)%nat → adjacent i j i' j' →
              cell a i' j' = cell a i j).
    { intros i j i' j' Hi Hj Hi' Hj' Hadj.
      destruct (decide (cell a i' j' = cell a i j)) as [|Hne]; [done|].
      exfalso. apply (filter_nil_not_elem_of _ _ (site i j) Hnil).
      - apply (von_neumann_site a size i j Ha Hi Hj). by exists i', j'.
      - apply elem_of_row_major. unfold site. simpl. lia. }
    assert (Hfirst : ∀ i j : nat, (i < size)%nat → (j < size)%nat →
              cell a i j = cell a 0 0).
    { intros i j Hi Hj. transitivity (cell a i 0).
      - revert Hj. induction j as [|j IH]; intros Hj; [done|].
        rewrite <- IH by lia. apply Hadj; [lia..|]. unfold adjacent. lia.
      - clear Hj. revert Hi. induction i as [|i IH]; intros Hi; [done|].
        rewrite <- IH by lia. apply Hadj; [lia..|]. unfold adjacent. lia. }
    intros i j i' j' Hi Hj Hi' Hj'.
    by rewrite (Hfirst i j), (Hfirst i' j') by done.
  - intros Hsame. f_equal. apply elem_of_nil_inv. intros p.
    rewrite list_elem_of_filter, elem_of_row_major. intros [Hb [Hp1 Hp2]].
    assert (Hp : site (Z.to_nat p.1) (Z.to_nat p.2) = p).
    { destruct p as [x y]. unfold site. simpl in *. f_equal; lia. }
    rewrite <- Hp in Hb.
    apply (von_neumann_site a size) in Hb as (i' & j' & Hi' & Hj' & _ & Hne);
      [|done|lia|lia].
    apply Hne, Hsame; lia.
Qed.

(** ** find_boundaries on a lattice higher than wide *)

Lemma getitem_out_of_range {A} (a : list A) (k : nat) t :
  (length a ≤ k)%nat → getitem a (Z.of_nat k) t = Raise IndexError.
Proof.
  intros Hk. unfold getitem, np_index.
  destruct (Z.leb_spec 0 (Z.of_nat k)); [|lia].
  destruct (Z.ltb_spec (Z.of_nat k) (Z.of_nat (length a))); [lia|].
  destruct (Z.ltb_spec (Z.of_nat k) 0); [lia|].
  simpl. rewrite andb_false_r. reflexivity.
Qed.

Lemma getitem_raises {A} (a : list A) i t e :
  getitem a i t = Raise e → e = IndexError.
Proof.
  unfold getitem. destruct (np_index _ _) as [k|]; [|by intros [= <-]].
  destruct (a !! k); [done|by intros [= <-]].
Qed.

Lemma getitem2_raises a i j t e :
  getitem2 a i j t = Raise e → e = IndexError.
Proof.
  unfold getitem2. rewrite bind_run.
  destruct (getitem a i t) as [row t1| |] eqn:Hrow; [|intros [= <-]|done].
  - apply getitem_raises.
  - by apply getitem_raises in Hrow.
Qed.

Lemma for_each_raises {A St} (xs : list A) (body : A → St → M St) (e0 : exn) :
  (∀ x s t e, body x s t = Raise e → e = e0) →
  ∀ s t e, for_each xs body s t = Raise e → e = e0.
Proof.
  intros Hbody. induction xs as [|x xs IH]; intros s t e; [done|].
  cbn [for_each]. rewrite bind_run.
  destruct (body x s t) as [s1 t1| |] eqn:Hx; [apply IH| |done].
  intros [= <-]. by eapply Hbody.
Qed.

(** A loop that returns has run its body to the end for every item. *)
Lemma for_each_ret_elem {A St} (xs : list A) (body : A → St → M St)
    s t s' t' x :
  for_each xs body s t = Ret s' t' → x ∈ xs →
  ∃ s1 t1 s2 t2, body x s1 t1 = Ret s2 t2.
Proof.
  revert s t. induction xs as [|y xs IH]; intros s t Hrun Hx;
    [by apply elem_of_nil in Hx|].
  cbn [for_each] in Hrun.
  apply bind_ret_inv in Hrun as (s1 & t1 & Hy & Hrest).
  apply elem_of_cons in Hx as [->|Hx]; [by eauto|by eapply IH].
Qed.

Lemma differing_neighbor_raises a grain nn t e :
  differing_neighbor a grain nn t = Raise e → e = IndexError.
Proof.
  revert t. induction nn as [|q nn IH]; intros t; [done|].
  cbn [differing_neighbor]. rewrite bind_run.
  destruct (getitem2 a q.1 q.2 t) as [v t1| |] eqn:Hq; [|intros [= <-]|done].
  - case_bool_decide; [done|apply IH].
  - by apply getitem2_raises in Hq.
Qed.

Lemma scan_cell_raises a nn_f size i j b t e :
  scan_cell a nn_f size i j b t = Raise e → e = IndexError.
Proof.
  unfold scan_cell. rewrite bind_run.
  destruct (getitem2 _ _ _ t) as [g t1| |] eqn:Hg; [|intros [= <-]|done].
  - rewrite bind_run.
    destruct (differing_neighbor _ _ _ t1) as [d t2| |] eqn:Hd;
      [done|intros [= <-]|done].
    by apply differing_neighbor_raises in Hd.
  - by apply getitem2_raises in Hg.
Qed.

(** X19. [find_boundaries] takes the lattice extent from the number of rows
    alone: on a lattice with fewer columns than rows it walks off the end of
    a row and fails with IndexError, whatever the neighbour function. *)
Theorem find_boundaries_narrow a rows cols nn_f t :
  shape a rows cols → (cols < rows)%nat →
  find_boundaries a nn_f t = Raise IndexError.
Proof.
  intros [Hlen Hrows] Hnarrow.
  destruct (tape_free_find_boundaries a nn_f) as [[r|e] Hrun];
    rewrite Hrun; simpl.
  - exfalso. specialize (Hrun t). simpl in Hrun. unfold find_boundaries in Hrun.
    rewrite Hlen in Hrun.
    destruct (for_each_ret_elem _ _ _ _ _ _ 0%nat Hrun)
      as (b1 & t1 & b2 & t2 & Hrow); [apply elem_of_seq; lia|].
    destruct (for_each_ret_elem _ _ _ _ _ _ cols Hrow)
      as (b3 & t3 & b4 & t4 & Hcell); [apply elem_of_seq; lia|].
    unfold scan_cell in Hcell. apply bind_ret_inv in Hcell as (g & t5 & Hg & _).
    unfold getitem2 in Hg. apply bind_ret_inv in Hg as (row & t6 & Hrow0 & Hget).
    assert (Hrowlen : length row = cols).
    { unfold getitem in Hrow0. rewrite (np_index_nat (length a) 0) in Hrow0 by lia.
      destruct (a !! 0%nat) as [row0|] eqn:H0; [|done].
      injection Hrow0 as <- _. rewrite Forall_forall in Hrows.
      apply Hrows. by eapply list_elem_of_lookup_2. }
    rewrite getitem_out_of_range in Hget by lia. done.
  - f_equal. specialize (Hrun t). simpl in Hrun. unfold find_boundaries in Hrun.
    eapply (for_each_raises _ _ IndexError); [|exact Hrun].
    intros i b t1 e1. apply for_each_raises. intros j. apply scan_cell_raises.
Qed.

(** ** Every grain reaches the boundary *)

(** A property of positions on a line that holds somewhere and passes to
    the next position and to the one before holds everywhere. *)
Lemma line_closure (n x0 : nat) (Q : nat → Prop) :
  (x0 < n)%nat → Q x0 →
  (∀ x, (S x < n)%nat → Q x → Q (S x)) →
  (∀ x, (S x < n)%nat → Q (S x) → Q x) →
  ∀ x, (x < n)%nat → Q x.
Proof.
  intros Hx0 H0 Hup Hdown x Hx.
  destruct (decide (x0 ≤ x)%nat) as [Hle|Hgt].
  - induction x as [|x IH]; [by replace 0%nat with x0 by lia|].
    destruct (decide (x0 = S x)) as [<-|Hne]; [done|].
    apply Hup; [done|]. apply IH; lia.
  - assert (Hd : ∀ d, (d ≤ x0)%nat → Q (x0 - d)%nat).
    { induction d as [|d IH]; intros Hd; [by rewrite Nat.sub_0_r|].
      apply Hdown; [lia|].
      replace (S (x0 - S d)) with (x0 - d)%nat by lia. apply IH. lia. }
    replace x with (x0 - (x0 - x))%nat by lia. apply Hd. lia.
Qed.

(** A set of cells that holds one cell, and with a cell the cells next to
    it, holds every cell of the lattice. *)
Lemma lattice_closure (n i0 j0 : nat) (P : nat → nat → Prop) :
  (i0 < n)%nat → (j0 < n)%nat → P i0 j0 →
  (∀ i j i' j', (i < n)%nat → (j < n)%nat → (i' < n)%nat → (j' < n)%nat →
     adjacent i j i' j' → P i j → P i' j') →
  ∀ i j, (i < n)%nat → (j < n)%nat → P i j.
Proof.
  intros Hi0 Hj0 H0 Hadj i j Hi Hj.
  assert (Hrow : P i0 j).
  { apply (line_closure n j0 (P i0)); [done..| | |done].
    - intros x Hx HP. apply (Hadj i0 x i0 (S x)); [lia..| |done].
      unfold adjacent. lia.
    - intros x Hx HP. apply (Hadj i0 (S x) i0 x); [lia..| |done].
      unfold adjacent. lia. }
  apply (line_closure n i0 (λ x, P x j)); [done..| | |done].
  - intros x Hx HP. apply (Hadj x j (S x) j); [lia..| |done].
    unfold adjacent. lia.
  - intros x Hx HP. apply (Hadj (S x) j x j); [lia..| |done].
    unfold adjacent. lia.
Qed.

(** A grain that does not fill the lattice has a boundary site. *)
Lemma grain_bordered a size (k : Z) (i0 j0 i1 j1 : nat) :
  shape a size size →
  (i0 < size)%nat → (j0 < size)%nat → cell a i0 j0 = Some k →
  (i1 < size)%nat → (j1 < size)%nat → cell a i1 j1 ≠ Some k →
  ∃ i j : nat, (i < size)%nat ∧ (j < size)%nat ∧ cell a i j = Some k ∧
    boundary_site a Notebook.nn_f (site i j).
Proof.
  intros Ha Hi0 Hj0 Hk Hi1 Hj1 Hother.
  destruct (decide (Exists (λ p, grain_at a p = Some k ∧
                                 boundary_site a Notebook.nn_f p)
                           (row_major size))) as [Hex|Hnone].
  - apply Exists_exists in Hex as (p & [Hp1 Hp2]%elem_of_row_major & Hg & Hb).
    assert (Hp : site (Z.to_nat p.1) (Z.to_nat p.2) = p).
    { destruct p as [x y]. unfold site. simpl in *. f_equal; lia. }
    exists (Z.to_nat p.1), (Z.to_nat p.2).
    split; [lia|]. split; [lia|]. split; [done|]. by rewrite Hp.
  - exfalso. apply Hother.
    apply (lattice_closure size i0 j0 (λ i j, cell a i j = Some k)); [done..| |done|done].
    intros i j i' j' Hi Hj Hi' Hj' Hadj Hij.
    destruct (decide (cell a i' j' = Some k)) as [|Hne]; [done|].
    destruct Hnone. apply Exists_exists. exists (site i j). split.
    { apply elem_of_row_major. unfold site. simpl. lia. }
    split.
    { unfold grain_at, site. simpl. by rewrite !Nat2Z.id. }
    apply (von_neumann_site a size i j Ha Hi Hj).
    exists i', j'. split; [done|]. split; [done|]. split; [done|]. congruence.
Qed.

(** X18. With the notebook's neighbour function every grain that does not
    fill the whole lattice is in the sequence found: one of its own sites is
    reported. *)
Theorem find_boundaries_every_grain a size t r t' (k : Z)
    (i0 j0 i1 j1 : nat) :
  shape a size size →
  find_boundaries a Notebook.nn_f t = Ret r t' →
  (i0 < size)%nat → (j0 < size)%nat → cell a i0 j0 = Some k →
  (i1 < size)%nat → (j1 < size)%nat → cell a i1 j1 ≠ Some k →
  ∃ i j : nat, (i < size)%nat ∧ (j < size)%nat ∧ cell a i j = Some k ∧
    site i j ∈ r.
Proof.
  intros Ha Hrun Hi0 Hj0 Hk Hi1 Hj1 Hother.
  destruct (grain_bordered a size k i0 j0 i1 j1) as (i & j & Hi & Hj & Hc & Hb);
    [done..|].
  exists i, j. split; [done|]. split; [done|]. split; [done|].
  apply (find_boundaries_member a size _ _ _ _ _ Ha Hrun).
  split; [|done]. unfold on_lattice, site. simpl. lia.
Qed.

(** ** The mask of the plotting cell *)

Lemma mark_loop (SIZE : nat) (bs : list coord) (mask0 : grid) t :
  shape mask0 SIZE SIZE → Forall (on_lattice SIZE) bs →
  ∃ mask,
    for_each bs (λ b mask, setitem2 mask b.1 b.2 10) mask0 t = Ret mask t ∧
    shape mask SIZE SIZE ∧
    ∀ p, on_lattice SIZE p →
      grain_at mask p = if decide (p ∈ bs) then Some 10 else grain_at mask0 p.
Proof.
  intros Hshape Hbs. revert mask0 Hshape.
  induction Hbs as [|b bs Hb _ IH]; intros mask0 Hshape.
  - exists mask0. split; [done|]. split; [done|]. intros p _.
    by rewrite decide_False by apply not_elem_of_nil.
  - destruct (on_lattice_grain mask0 SIZE b Hshape Hb) as [w Hw].
    destruct (IH (with_cell mask0 (Z.to_nat b.1) (Z.to_nat b.2) 10))
      as (mask & Hrun & Hmask & Hcells); [by apply shape_with_cell|].
    exists mask. cbn [for_each].
    rewrite bind_run, (setitem2_coord _ _ _ w) by (done || apply Hb).
    split; [done|]. split; [done|]. intros p Hp. rewrite (Hcells p Hp).
    rewrite (grain_at_with_cell _ _ _ _ w) by (done || apply Hb || apply Hp).
    destruct (decide (p ∈ bs)) as [Hin|Hout].
    + by rewrite decide_True by (by right).
    + destruct (decide (p = b)) as [->|Hne].
      * by rewrite decide_True by (by left).
      * rewrite decide_False; [done|].
        by intros [?|?]%elem_of_cons.
Qed.




(** ** The cells of the notebook in sequence *)

Section Session.
Context {F : Type} `{ScalarOrder F}.

Lemma row_major_filter_on_lattice (SIZE : nat) (P : coord → Prop)
    `{!∀ p, Decision (P p)} :
  Forall (on_lattice SIZE) (filter P (row_major SIZE)).
Proof.
  apply Forall_forall. intros p [_ Hp]%list_elem_of_filter.
  by apply elem_of_row_major.
Qed.

(** What a finished session holds. *)
Lemma session_ret (SIZE : nat) (n_grains : Z) (basis : matrix F) nn_f
    t lat bs mask t' :
  (0 < SIZE)%nat →
  session SIZE n_grains basis nn_f t = Ret (lat, bs, mask) t' →
  generate_lattice SIZE (Z.of_nat SIZE) n_grains basis t = Ret lat t' ∧
  shape lat SIZE SIZE ∧
  bs = filter (boundary_site lat nn_f) (row_major SIZE) ∧
  shape mask SIZE SIZE ∧
  ∀ i j : nat, (i < SIZE)%nat → (j < SIZE)%nat →
    cell mask i j = Some (if decide (site i j ∈ bs) then 10 else 0).
Proof.
  intros HSIZE Hrun. unfold session in Hrun.
  apply bind_ret_inv in Hrun as (lat1 & t1 & Hgen & Hrun).
  assert (Hshape : shape lat1 SIZE SIZE).
  { apply generate_lattice_ret in Hgen as (_ & lat0 & os & t0 & _ & _ & Hfill);
      [|done..]. apply Hfill. }
  rewrite bind_run, (find_boundaries_run lat1 SIZE SIZE) in Hrun by done.
  destruct (mark_loop SIZE (filter (boundary_site lat1 nn_f) (row_major SIZE))
              _ t1 (shape_uniform SIZE 0) (row_major_filter_on_lattice SIZE _))
    as (mask1 & Hmark & Hmask & Hcells).
  unfold boundary_marked in Hrun. rewrite bind_run, Hmark in Hrun.
  injection Hrun as <- <- <- <-.
  split; [done|]. split; [done|]. split; [done|]. split; [done|].
  intros i j Hi Hj.
  assert (Hp : on_lattice SIZE (site i j)) by (unfold on_lattice, site; simpl; lia).
  specialize (Hcells _ Hp). rewrite grain_at_uniform in Hcells by apply Hp.
  unfold grain_at, site in Hcells. simpl in Hcells.
  rewrite !Nat2Z.id in Hcells. rewrite Hcells. unfold site. by case_decide.
Qed.

(** X23. With two grains or more and the notebook's neighbour function,
    every grain of a finished session shows in the boundary: one of its own
    sites is in the sequence found and is marked in the mask. *)
Theorem session_every_grain_bordered (SIZE : nat) (n_grains : Z)
    (basis : matrix F) t lat bs mask t' (k : Z) :
  (0 < SIZE)%nat → 2 ≤ n_grains →
  session SIZE n_grains basis Notebook.nn_f t = Ret (lat, bs, mask) t' →
  0 ≤ k < n_grains →
  ∃ i j : nat, (i < SIZE)%nat ∧ (j < SIZE)%nat ∧
    cell lat i j = Some k ∧ site i j ∈ bs ∧ cell mask i j = Some 10.
Proof.
  intros HSIZE Hn Hrun Hk.
  apply session_ret in Hrun as (Hgen & Hlat & Hbs & Hmask & Hcells); [|done].
  apply generate_lattice_ret in Hgen
    as (_ & lat0 & os & t0 & _ & Hinv & Hfill); [|done..].
  pose proof (chosen_length _ _ _ _ _ Hinv) as Hlen.
  set (k' := if decide (k = 0) then 1 else 0).
  destruct (lookup_lt_is_Some_2 os (Z.to_nat k)) as [o Ho]; [lia|].
  destruct (lookup_lt_is_Some_2 os (Z.to_nat k')) as [o' Ho'];
    [unfold k'; case_decide; lia|].
  destruct (origin_cell SIZE basis _ _ _ _ _ _ Hinv Hfill Ho) as [[Ho1 Ho2] Hc].
  destruct (origin_cell SIZE basis _ _ _ _ _ _ Hinv Hfill Ho') as [[Ho1' Ho2'] Hc'].
  unfold grain_at in Hc, Hc'. rewrite Z2Nat.id in Hc by lia.
  rewrite Z2Nat.id in Hc' by (unfold k'; case_decide; lia).
  destruct (grain_bordered lat SIZE k (Z.to_nat o.1) (Z.to_nat o.2)
              (Z.to_nat o'.1) (Z.to_nat o'.2))
    as (i & j & Hi & Hj & Hcell & Hb); [done|lia|lia|done|lia|lia| |].
  { rewrite Hc'. intros [= Heq]. unfold k' in Heq. case_decide; lia. }
  assert (Hin : site i j ∈ bs).
  { rewrite Hbs, list_elem_of_filter, elem_of_row_major. unfold site at 2 3.
    simpl. split; [done|lia]. }
  exists i, j. split; [done|]. split; [done|]. split; [done|]. split; [done|].
  by rewrite (Hcells i j Hi Hj), decide_True.
Qed.
End Session.

(** X22. The notebook's cells compose: for one grain or more on a lattice
    with sites, with the arrays allocated and no squared distance NaN, for
    every neighbour function, the sequence generate, find, mark raises
    nothing, and when it ends the mask holds 10 exactly at the boundary
    sites of the generated lattice and 0 elsewhere. *)
Theorem session_marks_boundaries (SIZE : nat) (n_grains : Z)
    (basis : matrix float) (nn_f : coord → list coord) (t : tape) :
  (0 < SIZE)%nat → 0 < n_grains →
  allocates SIZE n_grains → no_nan_distance SIZE basis →
  match session SIZE n_grains basis nn_f t with
  | Ret (lat, bs, mask) _ =>
      shape lat SIZE SIZE ∧ shape mask SIZE SIZE ∧
      ∀ i j : nat, (i < SIZE)%nat → (j < SIZE)%nat →
        cell mask i j =
        Some (if decide (boundary_site lat nn_f (site i j)) then 10 else 0)
  | Raise _ => False
  | Pending => True
  end.
Proof.
  intros HSIZE Hn Halloc Hnan.
  destruct (session SIZE n_grains basis nn_f t) as [[[lat bs] mask] t'|e|] eqn:Hrun;
    [| |done].
  - apply session_ret in Hrun as (_ & Hlat & -> & Hmask & Hcells);
      [|done].
    split; [done|]. split; [done|]. intros i j Hi Hj.
    rewrite (Hcells i j Hi Hj). f_equal.
    assert (Hiff : site i j ∈ filter (boundary_site lat nn_f) (row_major SIZE) ↔
                   boundary_site lat nn_f (site i j)).
    { rewrite list_elem_of_filter, elem_of_row_major. unfold site at 2 3.
      simpl. split; [tauto|]. intros Hb. split; [done|lia]. }
    repeat case_decide; tauto.
  - unfold session in Hrun. rewrite bind_run in Hrun.
    pose proof (generate_lattice_post SIZE (Z.of_nat SIZE) n_grains basis
                  HSIZE Hn Halloc (no_nan_sq_dist SIZE basis Hnan) t) as Hgen.
    destruct (generate_lattice SIZE (Z.of_nat SIZE) n_grains basis t)
      as [lat t1| |]; [|done..].
    rewrite bind_run, (find_boundaries_run lat SIZE SIZE) in Hrun by done.
    destruct (mark_loop SIZE (filter (boundary_site lat nn_f) (row_major SIZE))
                _ t1 (shape_uniform SIZE 0) (row_major_filter_on_lattice SIZE _))
      as (mask1 & Hmark & _).
    unfold boundary_marked in Hrun. by rewrite bind_run, Hmark in Hrun.
Qed.

(** ** Rejected draws *)

(** X9. A draw that repeats the origin just accepted is discarded: with
    two grains or more, the call goes on as if the repeated draw had not
    been made. *)
Theorem generate_lattice_repeated_draw {F : Type} `{Scalar F} (SIZE : nat)
    (size n_grains : Z) (basis : matrix F) (w0 w1 w0' w1' : nat) (t : tape) :
  (0 < SIZE)%nat → 2 ≤ n_grains →
  drawn SIZE w0' w1' = drawn SIZE w0 w1 →
  generate_lattice SIZE size n_grains basis (w0 :: w1 :: w0' :: w1' :: t) =
  generate_lattice SIZE size n_grains basis (w0 :: w1 :: t).
Proof.
  intros HSIZE Hn Hsame. unfold generate_lattice. rewrite !bind_run.
  destruct (decide (allocates SIZE n_grains)) as [Halloc|Hbad];
    [|by rewrite !choose_origins_refused by (by right)].
  set (n := Z.to_nat n_grains). assert (Hn' : (2 ≤ n)%nat) by lia.
  assert (Hnat : n_grains = Z.of_nat n) by (unfold n; lia).
  rewrite Hnat in Halloc |- *. rewrite !choose_origins_run by done.
  pose proof (initial_chosen SIZE HSIZE n) as Hinit.
  pose proof (accept_chosen SIZE HSIZE n 0 _ _ (drawn SIZE w0 w1) Hinit
                ltac:(lia) (drawn_on_lattice SIZE w0 w1 HSIZE)
                ltac:(by intros ?%elem_of_nil)) as Hone.
  rewrite !(select_step SIZE HSIZE) by (done || lia). cbv beta iota.
  rewrite !bool_decide_eq_false_2 by (by intros ?%elem_of_nil).
  cbn [length]. rewrite (select_step SIZE HSIZE) by (done || lia).
  cbv beta iota. rewrite bool_decide_eq_true_2.
  - by rewrite (select_origins_fuel SIZE HSIZE _ (S (S (length t))) n 1)
      by (done || simpl; lia).
  - rewrite Hsame. unfold accept. cbn [snd].
    rewrite take_succ_insert by (rewrite length_replicate; lia).
    by apply list_elem_of_singleton.
Qed.

(** ** Draws and the basis *)

(** X10. Only origin selection can go on without end: once the origins are
    chosen, and with no squared distance NaN, the fill pass draws at most
    once a cell, so SIZE² further draws always let the call return. *)
Theorem generate_lattice_fill_terminates (SIZE : nat) (size n_grains : Z)
    (basis : matrix float) t lat0 os t0 :
  (0 < SIZE)%nat → 0 < n_grains → no_nan_distance SIZE basis →
  choose_origins SIZE n_grains t = Ret (lat0, os) t0 →
  (SIZE * SIZE ≤ length t0)%nat →
  ∃ lat t',
    generate_lattice SIZE size n_grains basis t = Ret lat t' ∧
    (length t0 ≤ length t' + SIZE * SIZE)%nat.
Proof.
  intros HSIZE Hn Hnan Hsel Hlen. unfold generate_lattice.
  rewrite bind_run, Hsel.
  destruct (choose_origins_ret SIZE _ _ _ _ HSIZE Hsel) as (_ & _ & Hinv).
  simpl in Hinv.
  assert (Hos : os ≠ []).
  { intros ->. pose proof (chosen_length _ _ _ _ _ Hinv). simpl in *. lia. }
  pose proof (chosen_on_lattice _ _ _ _ _ Hinv) as Hon.
  rewrite take_ge in Hon by (rewrite (chosen_length _ _ _ _ _ Hinv); lia).
  pose proof (fill_total basis os lat0 SIZE Hos (chosen_shape _ _ _ _ _ Hinv)
                ltac:(intros; apply (no_nan_sq_dist SIZE); auto) t0) as Hfill.
  destruct (fill SIZE basis os lat0 t0) as [lat t'| |]; [|done|lia].
  exists lat, t'. tauto.
Qed.

Lemma for_each_ext {A St} (xs : list A) (body1 body2 : A → St → M St) :
  (∀ x s t, body1 x s t = body2 x s t) →
  ∀ s t, for_each xs body1 s t = for_each xs body2 s t.
Proof.
  intros Hbody. induction xs as [|x xs IH]; intros s t; [done|].
  cbn [for_each]. rewrite !bind_run, Hbody.
  destruct (body2 x s t); [apply IH|done|done].
Qed.

Lemma SF64mul_opp_l b x : SF64mul (SFopp b) x = SFopp (SF64mul b x).
Proof.
  unfold SF64mul. destruct b as [sb|sb| |sb mb eb], x as [sx|sx| |sx mx ex];
    cbn [SFmul SFopp]; try done; try (by destruct sb, sx).
  rewrite <- binary_round_aux_opp. by destruct sb, sx.
Qed.

Lemma dot_negate (b r : float * float) :
  mirrored (Prim2SF (dot b r))
           (Prim2SF (dot (PrimFloat.opp b.1, PrimFloat.opp b.2) r)).
Proof.
  unfold dot. cbn [fst snd fadd fmul float64].
  rewrite !FloatAxioms.add_spec, !FloatAxioms.mul_spec, !FloatAxioms.opp_spec.
  apply SF64add_mirrored; left; apply SF64mul_opp_l.
Qed.

(** The negative of a basis gives every squared distance as the basis
    does. *)
Lemma sq_dist_to_negate (basis : matrix float) (i j : Z) (o : coord) :
  sq_dist_to (negate_basis basis) i j o = sq_dist_to basis i j o.
Proof.
  unfold sq_dist_to, sq_norm, cart_rel_row, negate_basis. cbn [fst snd].
  set (r := rel_row i j o).
  change (fadd (fmul (dot (PrimFloat.opp basis.1.1, PrimFloat.opp basis.1.2) r)
                     (dot (PrimFloat.opp basis.1.1, PrimFloat.opp basis.1.2) r))
               (fmul (dot (PrimFloat.opp basis.2.1, PrimFloat.opp basis.2.2) r)
                     (dot (PrimFloat.opp basis.2.1, PrimFloat.opp basis.2.2) r)) =
          fadd (fmul (dot basis.1 r) (dot basis.1 r))
               (fmul (dot basis.2 r) (dot basis.2 r))).
  cbn [fadd fmul float64].
  by rewrite (square_mirrored _ _ (dot_negate basis.1 r)),
             (square_mirrored _ _ (dot_negate basis.2 r)).
Qed.

(** X11. The sign of the basis does not matter: in float64 a basis and its
    negative give every squared distance alike, so on the same draws they
    give the same lattice and leave the generator in the same state. *)
Theorem generate_lattice_scale (SIZE : nat) (size n_grains : Z)
    (basis : matrix float) (t : tape) :
  generate_lattice SIZE size n_grains (negate_basis basis) t =
  generate_lattice SIZE size n_grains basis t.
Proof.
  unfold generate_lattice. rewrite !bind_run.
  destruct (choose_origins SIZE n_grains t) as [[lat0 os] t0| |]; [|done..].
  unfold fill. apply for_each_ext. intros i lat t1.
  apply for_each_ext. intros j lat1 t2. unfold fill_cell.
  assert (Hsq : sq_dist (negate_basis basis) (Z.of_nat i) (Z.of_nat j) os =
                sq_dist basis (Z.of_nat i) (Z.of_nat j) os).
  { unfold sq_dist. apply list_fmap_ext. intros k o _. apply sq_dist_to_negate. }
  by rewrite Hsq.
Qed.

(** A factor other than a sign changes the rounding, and with it the ties:
    on the same draws a basis and three times it give different lattices. *)
Example tripled_basis_differs :
  returned (generate_lattice 3 3 2 skew_basis tie_tape)
    = Some [[0; 0; 0]; [1; 1; 1]; [1; 1; 1]] ∧
  returned (generate_lattice 3 3 2 skew_basis_tripled tie_tape)
    = Some [[0; 0; 0]; [0; 1; 1]; [1; 1; 1]].
Proof. split; vm_compute; reflexivity. Qed.

(** ** The further properties on sample runs *)

Ltac shape_of_sample := split; [reflexivity | repeat constructor].

Ltac no_nan_on basis size :=
  apply (bool_decide_unpack (no_nan_distance size basis)); by vm_compute.


Lemma generate_lattice_labels_witness :
  shape corner_lattice 3 3 ∧
  ∀ i j : nat, (i < 3)%nat → (j < 3)%nat →
    ∃ v, cell corner_lattice i j = Some v ∧ 0 ≤ v < 2.
Proof.
  apply (generate_lattice_labels 3 3 2 Notebook.identity corner_tape
           corner_lattice []); [lia|reflexivity].
Defined.

Lemma generate_lattice_origins_witness :
  ∃ lat0 os t0,
    choose_origins 3 2 corner_tape = Ret (lat0, os) t0 ∧
    length os = Z.to_nat 2 ∧ NoDup os ∧
    (∀ o, o ∈ os → on_lattice 3 o) ∧
    ∀ (k : nat) o, os !! k = Some o →
      grain_at corner_lattice o = Some (Z.of_nat k).
Proof.
  apply (generate_lattice_origins 3 3 2 Notebook.identity corner_tape
           corner_lattice []); [lia|reflexivity].
Defined.

Lemma generate_lattice_can_return_witness :
  ∃ t lat t', generate_lattice 2 2 (Z.of_nat 3) Notebook.identity t = Ret lat t'.
Proof.
  apply (generate_lattice_can_return 2 2 3 Notebook.identity).
  - lia.
  - lia.
  - split; by vm_compute.
  - no_nan_on Notebook.identity 2%nat.
Defined.

Lemma generate_lattice_never_raises_witness :
  generate_lattice 3 3 2 Notebook.identity corner_tape ≠ Raise ValueError.
Proof.
  apply (generate_lattice_never_raises 3 3 2 Notebook.identity corner_tape
           ValueError).
  - lia.
  - lia.
  - split; by vm_compute.
  - no_nan_on Notebook.identity 3%nat.
Defined.

Lemma generate_lattice_empty_lattice_witness :
  generate_lattice 0 5 2 Notebook.identity corner_tape = Raise ValueError ∧
  generate_lattice 0 5 0 Notebook.identity corner_tape = Ret [] corner_tape.
Proof.
  split.
  - apply (generate_lattice_empty_lattice 5 2 Notebook.identity corner_tape). lia.
  - apply (generate_lattice_empty_lattice 5 0 Notebook.identity corner_tape).
    reflexivity.
Defined.

Lemma generate_lattice_every_grain_witness :
  ∃ i j : nat, (i < 3)%nat ∧ (j < 3)%nat ∧ cell corner_lattice i j = Some 1.
Proof.
  apply (generate_lattice_every_grain 3 3 2 Notebook.identity corner_tape
           corner_lattice [] 1); [lia|reflexivity|lia].
Defined.

Lemma generate_lattice_unique_nearest_witness :
  ∃ lat0 os t0,
    choose_origins 3 2 corner_tape = Ret (lat0, os) t0 ∧
    ∀ (i j k : nat) (o : coord),
      (i < 3)%nat → (j < 3)%nat → site i j ∉ os → os !! k = Some o →
      (∀ (k' : nat) o', os !! k' = Some o' → k' ≠ k →
         PrimFloat.ltb
           (transformed_sq_distance Notebook.identity (site i j) o)
           (transformed_sq_distance Notebook.identity (site i j) o') = true) →
      cell corner_lattice i j = Some (Z.of_nat k).
Proof.
  apply (generate_lattice_unique_nearest 3 3 2 Notebook.identity corner_tape
           corner_lattice []); [lia|reflexivity].
Defined.

Lemma generate_lattice_full_witness :
  ∃ os,
    choose_origins 2 (Z.of_nat (2 * 2)) full_tape = Ret ([[0; 1]; [2; 3]], os) [] ∧
    ∀ i j : nat, (i < 2)%nat → (j < 2)%nat →
      ∃ k : nat, os !! k = Some (site i j) ∧
                 cell [[0; 1]; [2; 3]] i j = Some (Z.of_nat k).
Proof.
  apply (generate_lattice_full 2 2 Notebook.identity full_tape [[0; 1]; [2; 3]] []);
    [lia|reflexivity].
Defined.

Lemma generate_lattice_repeated_draw_witness :
  generate_lattice 3 3 2 Notebook.identity (0 :: 0 :: 3 :: 3 :: tail (tail corner_tape))%nat =
  generate_lattice 3 3 2 Notebook.identity (0 :: 0 :: tail (tail corner_tape))%nat.
Proof.
  apply (generate_lattice_repeated_draw 3 3 2 Notebook.identity 0 0 3 3);
    [lia|lia|reflexivity].
Defined.

Lemma generate_lattice_fill_terminates_witness :
  ∃ lat t',
    generate_lattice 2 2 1 Notebook.identity [1; 0; 7; 7; 7; 7]%nat = Ret lat t' ∧
    (length [7; 7; 7; 7]%nat ≤ length t' + 2 * 2)%nat.
Proof.
  apply (generate_lattice_fill_terminates 2 2 1 Notebook.identity
           [1; 0; 7; 7; 7; 7]%nat [[-1; -1]; [0; -1]] [(1, 0)] [7; 7; 7; 7]%nat).
  - lia.
  - lia.
  - no_nan_on Notebook.identity 2%nat.
  - reflexivity.
  - simpl. lia.
Defined.

Lemma generate_lattice_scale_witness :
  generate_lattice 3 3 2 (negate_basis Notebook.identity) corner_tape =
  generate_lattice 3 3 2 Notebook.identity corner_tape.
Proof.
  apply (generate_lattice_scale 3 3 2 Notebook.identity corner_tape).
Defined.

Lemma find_boundaries_monotone_witness :
  ∃ r_f r_g,
    find_boundaries sample_lattice Notebook.nn_f [] = Ret r_f [] ∧
    find_boundaries sample_lattice moore [] = Ret r_g [] ∧
    r_f `sublist_of` r_g.
Proof.
  apply (find_boundaries_monotone sample_lattice 3 Notebook.nn_f moore []).
  - shape_of_sample.
  - intros p q Hq. unfold moore. rewrite fmap_app. apply elem_of_app. by left.
Defined.

Lemma find_boundaries_neighbour_set_witness :
  find_boundaries sample_lattice Notebook.nn_f [] =
  find_boundaries sample_lattice nn_f_reversed [].
Proof.
  apply (find_boundaries_neighbour_set sample_lattice 3 Notebook.nn_f
           nn_f_reversed []).
  - shape_of_sample.
  - intros p q. unfold nn_f_reversed. by rewrite fmap_reverse, elem_of_reverse.
Defined.

Lemma find_boundaries_relabel_witness :
  find_boundaries (relabel (λ x, x + 5) sample_lattice) Notebook.nn_f [] =
  find_boundaries sample_lattice Notebook.nn_f [].
Proof.
  apply (find_boundaries_relabel (λ x, x + 5) sample_lattice 3 Notebook.nn_f []).
  - intros x y Hxy. lia.
  - shape_of_sample.
Defined.

Lemma find_boundaries_von_neumann_witness :
  ∃ r, find_boundaries sample_lattice Notebook.nn_f [] = Ret r [] ∧
    ∀ i j : nat, (i < 3)%nat → (j < 3)%nat →
      (site i j ∈ r ↔
       ∃ i' j' : nat, (i' < 3)%nat ∧ (j' < 3)%nat ∧
         adjacent i j i' j' ∧ cell sample_lattice i' j' ≠ cell sample_lattice i j).
Proof.
  apply (find_boundaries_von_neumann sample_lattice 3 []). shape_of_sample.
Defined.

Lemma find_boundaries_two_sided_witness :
  ∃ i' j' : nat, (i' < 3)%nat ∧ (j' < 3)%nat ∧ adjacent 0 1 i' j' ∧
    cell sample_lattice i' j' ≠ cell sample_lattice 0 1 ∧
    site i' j' ∈ sample_boundaries.
Proof.
  apply (find_boundaries_two_sided sample_lattice 3 [] sample_boundaries [] 0 1).
  - shape_of_sample.
  - reflexivity.
  - lia.
  - lia.
  - by left.
Defined.

Lemma find_boundaries_empty_iff_uniform_witness :
  find_boundaries (replicate 2 (replicate 2 7)) Notebook.nn_f [] = Ret [] [] ↔
  ∀ i j i' j' : nat, (i < 2)%nat → (j < 2)%nat → (i' < 2)%nat → (j' < 2)%nat →
    cell (replicate 2 (replicate 2 7)) i j = cell (replicate 2 (replicate 2 7)) i' j'.
Proof.
  apply (find_boundaries_empty_iff_uniform (replicate 2 (replicate 2 7)) 2 []).
  shape_of_sample.
Defined.

Lemma find_boundaries_every_grain_witness :
  ∃ i j : nat, (i < 3)%nat ∧ (j < 3)%nat ∧ cell sample_lattice i j = Some 1 ∧
    site i j ∈ sample_boundaries.
Proof.
  apply (find_boundaries_every_grain sample_lattice 3 [] sample_boundaries []
           1 0 2 0 0).
  - shape_of_sample.
  - reflexivity.
  - lia.
  - lia.
  - reflexivity.
  - lia.
  - lia.
  - simpl. discriminate.
Defined.

Lemma find_boundaries_narrow_witness :
  find_boundaries [[0]; [1]] far_away [] = Raise IndexError.
Proof.
  apply (find_boundaries_narrow [[0]; [1]] 2 1 far_away []).
  - shape_of_sample.
  - lia.
Defined.



Lemma session_marks_boundaries_witness :
  match session 3 2 Notebook.identity Notebook.nn_f corner_tape with
  | Ret (lat, bs, mask) _ =>
      shape lat 3 3 ∧ shape mask 3 3 ∧
      ∀ i j : nat, (i < 3)%nat → (j < 3)%nat →
        cell mask i j =
        Some (if decide (boundary_site lat Notebook.nn_f (site i j)) then 10 else 0)
  | Raise _ => False
  | Pending => True
  end.
Proof.
  apply (session_marks_boundaries 3 2 Notebook.identity Notebook.nn_f corner_tape).
  - lia.
  - lia.
  - split; by vm_compute.
  - no_nan_on Notebook.identity 3%nat.
Defined.

Lemma session_every_grain_bordered_witness :
  ∃ i j : nat, (i < 3)%nat ∧ (j < 3)%nat ∧
    cell corner_lattice i j = Some 0 ∧ site i j ∈ corner_boundaries ∧
    cell corner_mask i j = Some 10.
Proof.
  apply (session_every_grain_bordered 3 2 Notebook.identity corner_tape
           corner_lattice corner_boundaries corner_mask [] 0);
    [lia|lia|reflexivity|lia].
Defined.
